(** * gemmi_tools: the grid sampler and its Python binding

    A shallow embedding of
    - [gemmi_tools/sample.hpp]  ([get_sample_positions], [sample_grid]),
    - the [sample.cpp] that defines the Python module
      [gemmi_tools_python] ([get_sample_positions], the two [fill_array]
      overloads, [get_point_position_map] and the bindings [sample],
      [sample_positions], [sample_point_positions]); the draft of it kept
      as [gemmi_tools/python/sample.cpp] builds the same key in
      [get_sample_positions] and runs the same loops in [fill_array],
    together with a model of the grid storage and of the trilinear
    interpolator that the binding calls into (the library headers
    [gemmi/grid.hpp] and [gemmi/unitcell.hpp]).

    Conventions.
    - [std::vector<int>] is a [list Z].  The [ssize_t] indices of the
      loops are natural numbers (an array has fewer than 2^63 cells);
      where the code narrows them to [int], so does the model.
    - [std::map<K,V>] is a [gmap K V]; [insert] keeps an existing entry,
      [operator[]] default-inserts a missing one, iteration follows the
      lexicographic order of the keys.
    - A call either returns, raises (the throw of pybind11's
      [mutable_unchecked()] on an array that is not writeable), has
      undefined behaviour (an unchecked access out of range) or is still
      running when the fuel given to its loops is used up: the type
      [outcome]. *)

From stdpp Require Import gmap list sorting numbers.
From Stdlib Require Import QArith Qround Qcanon.
From Stdlib Require Import PrimFloat FloatOps SpecFloat.

Local Open Scope Z_scope.

(** ** Outcomes of a call *)

(** The errors the specification names, and the one error a call into
    pybind11 raises in the sources: [std::domain_error("array is not
    writeable")], thrown by [mutable_unchecked()] (it reaches Python as a
    [ValueError] that names no key).  The sources themselves contain no
    [throw]; the first three constructors exist so that "the call raises"
    can be stated. *)
Inductive exn : Type :=
  | ConfigurationError
  | ValueError (key : list Z)
  | ShapeMismatchError (index : list Z)
  | NotWriteable.

Inductive outcome (A : Type) : Type :=
  | Returned (a : A)
  | Raised (e : exn)
  | Undefined
  | OutOfFuel.
Arguments Returned {A} a.
Arguments Raised {A} e.
Arguments Undefined {A}.
Arguments OutOfFuel {A}.

Definition obind {A B} (c : outcome A) (k : A → outcome B) : outcome B :=
  match c with
  | Returned a => k a
  | Raised e => Raised e
  | Undefined => Undefined
  | OutOfFuel => OutOfFuel
  end.

Notation "'let*' x := c 'in' k" := (obind c (λ x, k))
  (at level 10, x pattern, c at level 100, k at level 200).

(** An unchecked read: out of range is undefined behaviour. *)
Definition unchecked {A} (o : option A) : outcome A :=
  match o with Some a => Returned a | None => Undefined end.

(** [while (cond) body] with a bound on the number of iterations. *)
Fixpoint while {S} (cond : S → bool) (body : S → outcome S)
    (fuel : nat) (s : S) : outcome S :=
  match fuel with
  | O => OutOfFuel
  | S fuel' =>
      if cond s then let* s' := body s in while cond body fuel' s'
      else Returned s
  end.

(** [for (i = 0; i < n; i++) body] : the index runs over [seq 0 n]. *)
Fixpoint for_each {S I} (body : S → I → outcome S) (s : S) (idx : list I)
    : outcome S :=
  match idx with
  | [] => Returned s
  | i :: idx' => let* s' := body s i in for_each body s' idx'
  end.

(** ** [std::map] with [std::vector<int>] keys *)

Abbreviation key := (list Z) (only parsing).

(** [m.insert(std::pair(k, v))]: no effect when [k] is already present. *)
Definition map_insert {V} (m : gmap key V) (k : key) (v : V) : gmap key V :=
  match m !! k with
  | Some _ => m
  | None => <[k := v]> m
  end.

(** [m[k]]: a missing key is inserted with the default value [d] first;
    the value and the map after the access. *)
Definition map_index {V} (d : V) (m : gmap key V) (k : key) : V * gmap key V :=
  match m !! k with
  | Some v => (v, m)
  | None => (d, <[k := d]> m)
  end.

(** [operator<] of [std::vector<int>], the order [std::map] iterates in. *)
Fixpoint vec_lt (a b : key) : bool :=
  match a, b with
  | _, [] => false
  | [], _ :: _ => true
  | x :: a', y :: b' => (x <? y) || ((x =? y) && vec_lt a' b')
  end.

Definition vec_le (a b : key) : Prop := vec_lt b a = false.

Global Instance vec_le_dec : RelDecision vec_le.
Proof. intros a b. unfold vec_le. apply _. Defined.

Definition entry_le {V} (e1 e2 : key * V) : Prop := vec_le e1.1 e2.1.

Global Instance entry_le_dec {V} : RelDecision (@entry_le V).
Proof. intros a b. unfold entry_le. apply _. Defined.

(** The entries from [m.begin()] to [m.end()]. *)
Definition entries {V} (m : gmap key V) : list (key * V) :=
  merge_sort entry_le (map_to_list m).

(** ** Unit cell, grid storage and the interpolator

    The sources include [gemmi/grid.hpp] and [gemmi/unitcell.hpp] for
    [gemmi::Position], [gemmi::UnitCell], [gemmi::Grid<T>] and its
    [interpolate_value]; the headers themselves are not among the
    sources.  These four are modelled from the specification (sections
    3 and 4.1 to 4.3): first in exact arithmetic, over the rationals,
    then, further down, in binary64, the double precision that section
    4.1 asks for, where every operation rounds. *)

(** Modelled from the spec: [gemmi::Position] (declared in
    [gemmi/unitcell.hpp]), "plain 3-component real vectors", generic in
    the type of the coordinates. *)
Record Position (real : Type) : Type :=
  mkPosition { pos_x : real; pos_y : real; pos_z : real }.
Arguments mkPosition {real} pos_x pos_y pos_z.
Arguments pos_x {real} p.
Arguments pos_y {real} p.
Arguments pos_z {real} p.

Local Open Scope Qc_scope.

(** An integer as a rational. *)
Definition Z2Qc (n : Z) : Qc := Q2Qc (inject_Z n).

(** Modelled from the spec: FractionalPosition (gemmi's [Fractional], of
    [gemmi/unitcell.hpp]), a 3-component vector like [Position]. *)
Abbreviation Fractional := (Position Qc) (only parsing).

(** Vectors and 3x3 matrices. *)
Definition vec_add (p q : Position Qc) : Position Qc :=
  mkPosition (pos_x p + pos_x q) (pos_y p + pos_y q) (pos_z p + pos_z q).

Definition vec_scale (k : Qc) (p : Position Qc) : Position Qc :=
  mkPosition (k * pos_x p) (k * pos_y p) (k * pos_z p).

Record Mat33 : Type :=
  mkMat33 { m11 : Qc; m12 : Qc; m13 : Qc;
            m21 : Qc; m22 : Qc; m23 : Qc;
            m31 : Qc; m32 : Qc; m33 : Qc }.

Definition mat_apply (m : Mat33) (p : Position Qc) : Position Qc :=
  mkPosition (m11 m * pos_x p + m12 m * pos_y p + m13 m * pos_z p)
             (m21 m * pos_x p + m22 m * pos_y p + m23 m * pos_z p)
             (m31 m * pos_x p + m32 m * pos_y p + m33 m * pos_z p).

Definition mat_mul (a b : Mat33) : Mat33 :=
  mkMat33 (m11 a * m11 b + m12 a * m21 b + m13 a * m31 b)
          (m11 a * m12 b + m12 a * m22 b + m13 a * m32 b)
          (m11 a * m13 b + m12 a * m23 b + m13 a * m33 b)
          (m21 a * m11 b + m22 a * m21 b + m23 a * m31 b)
          (m21 a * m12 b + m22 a * m22 b + m23 a * m32 b)
          (m21 a * m13 b + m22 a * m23 b + m23 a * m33 b)
          (m31 a * m11 b + m32 a * m21 b + m33 a * m31 b)
          (m31 a * m12 b + m32 a * m22 b + m33 a * m32 b)
          (m31 a * m13 b + m32 a * m23 b + m33 a * m33 b).

Definition mat_id : Mat33 := mkMat33 1 0 0 0 1 0 0 0 1.

(** Modelled from the spec: [gemmi::UnitCell] (of [gemmi/unitcell.hpp]),
    the UnitCell of section 3, "six real parameters (a, b, c, alpha,
    beta, gamma) plus derived 3x3 orthogonalization and fractionalization
    matrices (mutually inverse)".  How the matrices derive from the
    parameters is not specified. *)
Record UnitCell : Type :=
  mkUnitCell { cell_a : Qc; cell_b : Qc; cell_c : Qc;
               alpha : Qc; beta : Qc; gamma : Qc;
               orth : Mat33; frac : Mat33 }.

(** Modelled from the spec: the invariant of a [UnitCell] (its
    constructor is in [gemmi/unitcell.hpp]), the two matrices are
    "mutually inverse". *)
Definition UnitCell_valid (c : UnitCell) : Prop :=
  mat_mul (frac c) (orth c) = mat_id ∧ mat_mul (orth c) (frac c) = mat_id.

(** Modelled from the spec: [UnitCell::orthogonalize] (of
    [gemmi/unitcell.hpp]), section 4.1, the application of the
    orthogonalization matrix. *)
Definition orthogonalize (c : UnitCell) (f : Fractional) : Position Qc :=
  mat_apply (orth c) f.

(** Modelled from the spec: [UnitCell::fractionalize] (of
    [gemmi/unitcell.hpp]), section 4.1, the application of the
    fractionalization matrix. *)
Definition fractionalize (c : UnitCell) (p : Position Qc) : Fractional :=
  mat_apply (frac c) p.

(** The three lattice vectors of the cell, the images of the unit
    fractional vectors, and their integer combinations. *)
Definition lattice_a (c : UnitCell) : Position Qc := orthogonalize c (mkPosition 1 0 0).
Definition lattice_b (c : UnitCell) : Position Qc := orthogonalize c (mkPosition 0 1 0).
Definition lattice_c (c : UnitCell) : Position Qc := orthogonalize c (mkPosition 0 0 1).

Definition lattice_combination (c : UnitCell) (n1 n2 n3 : Z) : Position Qc :=
  vec_add (vec_scale (Z2Qc n1) (lattice_a c))
    (vec_add (vec_scale (Z2Qc n2) (lattice_b c))
             (vec_scale (Z2Qc n3) (lattice_c c))).

Local Close Scope Qc_scope.

(** Modelled from the spec: [gemmi::Grid<T>] (of [gemmi/grid.hpp]), the
    Grid of section 3, "three positive integer extents (nu, nv, nw)", "a
    dense sequence of nu*nv*nw elements" and the owning UnitCell. *)
Record Grid (T : Type) : Type :=
  mkGrid { nu : Z; nv : Z; nw : Z; data : list T; unit_cell : UnitCell }.
Arguments mkGrid {T} nu nv nw data unit_cell.
Arguments nu {T} g.
Arguments nv {T} g.
Arguments nw {T} g.
Arguments data {T} g.
Arguments unit_cell {T} g.

(** Modelled from the spec: the index computation of [gemmi::Grid<T>]
    (of [gemmi/grid.hpp]), the storage offset of section 3,
    [((u mod nu)*nv + (v mod nv))*nw + (w mod nw)]. *)
Definition offset {T} (g : Grid T) (u v w : Z) : Z :=
  ((u mod nu g) * nv g + (v mod nv g)) * nw g + (w mod nw g).

(** A read and a write of the dense sequence at an offset; [None] is an
    access out of bounds. *)
Definition storage_read {T} (g : Grid T) (i : Z) : option T :=
  if decide (0 ≤ i) then data g !! Z.to_nat i else None.

Definition storage_write {T} (g : Grid T) (i : Z) (value : T) : option (Grid T) :=
  if decide (0 ≤ i < Z.of_nat (length (data g))) then
    Some (mkGrid (nu g) (nv g) (nw g) (<[Z.to_nat i := value]> (data g)) (unit_cell g))
  else None.

(** Modelled from the spec: the element read of [gemmi::Grid<T>] (of
    [gemmi/grid.hpp]), [at(u, v, w)] of section 4.2: the indices are
    "reduced modulo extents before storage access". *)
Definition grid_at {T} (g : Grid T) (u v w : Z) : option T :=
  storage_read g (offset g u v w).

(** Modelled from the spec: the element write of [gemmi::Grid<T>] (of
    [gemmi/grid.hpp]), [set(u, v, w, value)] of section 4.2. *)
Definition grid_set {T} (g : Grid T) (u v w : Z) (value : T) : option (Grid T) :=
  storage_write g (offset g u v w) value.

(** Modelled from the spec: the construction of a [gemmi::Grid<T>] (of
    [gemmi/grid.hpp]), section 4.2: it "requires nu, nv, nw >= 1; fails
    with ConfigurationError otherwise"; every element starts as [fill]. *)
Definition new_grid {T} (cell : UnitCell) (nu nv nw : Z) (fill : T) : outcome (Grid T) :=
  if decide (1 ≤ nu ∧ 1 ≤ nv ∧ 1 ≤ nw) then
    Returned (mkGrid nu nv nw (replicate (Z.to_nat (nu * nv * nw)) fill) cell)
  else Raised ConfigurationError.

(** The invariant of a constructed grid: extents of at least 1 and
    [nu*nv*nw] stored elements. *)
Definition constructed {T} (g : Grid T) : Prop :=
  1 ≤ nu g ∧ 1 ≤ nv g ∧ 1 ≤ nw g ∧
  Z.of_nat (length (data g)) = nu g * nv g * nw g.

Local Open Scope Qc_scope.

(** [floor] of a rational. *)
Definition floorc (q : Qc) : Z := Qfloor q.

(** Modelled from the spec: the weight of one axis in the body of
    [Grid<T>::interpolate_value] (of [gemmi/grid.hpp]), step 5 of
    section 4.3.  The step prints the weight of corner (du, dv, dw) as
    [(du? tu : 1-tu) * (dv? tv : 1-dv) * (dw? tw : 1-dw)]; [1-tv] and
    [1-tw] are taken for the last two factors, as the step's "weights
    sum to exactly 1" requires. *)
Definition weight (d : bool) (t : Qc) : Qc := if d then t else 1 - t.

(** The eight corners (du, dv, dw) of step 4. *)
Definition corners : list (bool * bool * bool) :=
  du ← [false; true]; dv ← [false; true]; dw ← [false; true]; [(du, dv, dw)].

(** Modelled from the spec: one term of the sum in the body of
    [Grid<T>::interpolate_value] (of [gemmi/grid.hpp]), steps 4 and 5 of
    section 4.3: the corner value, fetched through the wrap of the
    storage, times its weight. *)
Definition corner_term (g : Grid Qc) (u0 v0 w0 : Z) (tu tv tw : Qc)
    (d : bool * bool * bool) : option Qc :=
  let '(du, dv, dw) := d in
  x ← grid_at g (u0 + Z.b2z du)%Z (v0 + Z.b2z dv)%Z (w0 + Z.b2z dw)%Z;
  Some (weight du tu * weight dv tv * weight dw tw * x).

(** Modelled from the spec: [Grid<T>::interpolate_value] at a fractional
    position (of [gemmi/grid.hpp]), steps 2 to 6 of section 4.3, in
    exact arithmetic. *)
Definition interpolate_fractional (g : Grid Qc) (f : Fractional) : option Qc :=
  let fu := pos_x f * Z2Qc (nu g) in
  let fv := pos_y f * Z2Qc (nv g) in
  let fw := pos_z f * Z2Qc (nw g) in
  let u0 := floorc fu in
  let v0 := floorc fv in
  let w0 := floorc fw in
  let tu := fu - Z2Qc u0 in
  let tv := fv - Z2Qc v0 in
  let tw := fw - Z2Qc w0 in
  terms ← mapM (corner_term g u0 v0 w0 tu tv tw) corners;
  Some (foldr Qcplus 0 terms).

(** Modelled from the spec: [interpolate(grid, position)] of section 4.3
    ([Grid<T>::interpolate_value] at a [Position], of [gemmi/grid.hpp]),
    in exact arithmetic: step 1, then the steps above. *)
Definition interpolate (g : Grid Qc) (position : Position Qc) : option Qc :=
  interpolate_fractional g (fractionalize (unit_cell g) position).

(** Modelled from the spec: [Grid<T>::interpolate_value] (of
    [gemmi/grid.hpp]) as the sampler calls it, with a value for every
    grid: [interpolate], and zero on a grid that breaks the storage
    invariant, where [interpolate] has no value. *)
Definition interpolate_value (g : Grid Qc) (position : Position Qc) : Qc :=
  default 0 (interpolate g position).

Local Close Scope Qc_scope.

(** *** The interpolator in binary64

    The same steps with every coordinate, weight and sample a binary64
    number and every operation rounded to nearest. *)

Local Open Scope float_scope.

(** An integer as a binary64 number (rounded to nearest when it has more
    than 53 bits), and [floor] of a finite binary64 number. *)
Definition Z2F (n : Z) : float := SF2Prim (binary_normalize prec emax n 0 false).

Definition floor64 (x : float) : option Z :=
  match Prim2SF x with
  | S754_zero _ => Some 0%Z
  | S754_finite s m e =>
      let n := if s then Z.neg m else Z.pos m in
      Some (if decide (0 ≤ e)%Z then n * 2 ^ e else n / 2 ^ (- e))%Z
  | _ => None
  end.

Definition vec_add64 (p q : Position float) : Position float :=
  mkPosition (pos_x p + pos_x q) (pos_y p + pos_y q) (pos_z p + pos_z q).

(** A 3x3 matrix by its rows, and its application to a vector. *)
Record Mat33f : Type :=
  mkMat33f { row1 : Position float; row2 : Position float; row3 : Position float }.

Definition dot64 (a b : Position float) : float :=
  pos_x a * pos_x b + pos_y a * pos_y b + pos_z a * pos_z b.

Definition mat_apply64 (m : Mat33f) (p : Position float) : Position float :=
  mkPosition (dot64 (row1 m) p) (dot64 (row2 m) p) (dot64 (row3 m) p).

(** Modelled from the spec: the two matrices of [gemmi::UnitCell] (of
    [gemmi/unitcell.hpp]) in binary64, "double precision required"
    (section 4.1). *)
Record UnitCell64 : Type :=
  mkUnitCell64 { orth64 : Mat33f; frac64 : Mat33f }.

(** Modelled from the spec: [UnitCell::orthogonalize] and
    [UnitCell::fractionalize] (of [gemmi/unitcell.hpp]), section 4.1, in
    binary64. *)
Definition orthogonalize64 (c : UnitCell64) (f : Position float) : Position float :=
  mat_apply64 (orth64 c) f.

Definition fractionalize64 (c : UnitCell64) (p : Position float) : Position float :=
  mat_apply64 (frac64 c) p.

(** Modelled from the spec: the weight of one axis and one term of the
    sum in the body of [Grid<T>::interpolate_value] (of
    [gemmi/grid.hpp]), steps 4 and 5 of section 4.3, in binary64. *)
Definition weight64 (d : bool) (t : float) : float := if d then t else 1 - t.

Definition corner_term64 (g : Grid float) (u0 v0 w0 : Z) (tu tv tw : float)
    (d : bool * bool * bool) : option float :=
  let '(du, dv, dw) := d in
  x ← grid_at g (u0 + Z.b2z du)%Z (v0 + Z.b2z dv)%Z (w0 + Z.b2z dw)%Z;
  Some (weight64 du tu * weight64 dv tv * weight64 dw tw * x).

(** Modelled from the spec: [Grid<T>::interpolate_value] (of
    [gemmi/grid.hpp]), steps 1 to 6 of section 4.3, in binary64; the
    cell of the grid is given beside it. *)
Definition interpolate_fractional64 (g : Grid float) (f : Position float)
    : option float :=
  let fu := pos_x f * Z2F (nu g) in
  let fv := pos_y f * Z2F (nv g) in
  let fw := pos_z f * Z2F (nw g) in
  u0 ← floor64 fu;
  v0 ← floor64 fv;
  w0 ← floor64 fw;
  let tu := fu - Z2F u0 in
  let tv := fv - Z2F v0 in
  let tw := fw - Z2F w0 in
  terms ← mapM (corner_term64 g u0 v0 w0 tu tv tw) corners;
  Some (foldr PrimFloat.add 0 terms).

Definition interpolate64 (c : UnitCell64) (g : Grid float)
    (position : Position float) : option float :=
  interpolate_fractional64 g (fractionalize64 c position).

Local Close Scope float_scope.

(** ** [gemmi_tools/sample.hpp] *)

Module sample_hpp.

(** The loop state: the iterator [it], as the index of the entry it points
    at (so [it != end()] is [it < size]), and the map being built. *)
Record iterating (V : Type) : Type :=
  mkIterating { it : nat; built : gmap key V }.
Arguments mkIterating {V} it built.
Arguments it {V} i.
Arguments built {V} i.

Section Hpp.
Context {T real : Type}.
(** The conversion of a scalar to the [double] a [Position] holds. *)
Variable to_real : T → real.
(** [Grid<T>::interpolate_value(const Position&)]. *)
Variable interpolate_value : Grid T → Position real → T.

(** [get_sample_positions(std::map<std::vector<int>, std::vector<T>>)].
    The body of the [while] reads the entry under [it] and inserts; no
    statement of the body moves [it]. *)
Definition get_sample_positions_body (es : list (key * list T))
    (s : iterating (Position real)) : outcome (iterating (Position real)) :=
  let* e := unchecked (es !! it s) in
  let location := e.1 in
  let position := e.2 in
  let* p0 := unchecked (position !! 0%nat) in
  let* p1 := unchecked (position !! 1%nat) in
  let* p2 := unchecked (position !! 2%nat) in
  let position_gemmi := mkPosition (to_real p0) (to_real p1) (to_real p2) in
  Returned (mkIterating (it s) (map_insert (built s) location position_gemmi)).

Definition get_sample_positions (fuel : nat)
    (sample_positions : gmap key (list T)) : outcome (gmap key (Position real)) :=
  let es := entries sample_positions in
  let* s := while (λ s, (it s <? length es)%nat)
                  (get_sample_positions_body es)
                  fuel (mkIterating 0%nat ∅) in
  Returned (built s).

(** [sample_grid(gemmi::Grid<T>, std::map<std::vector<int>, gemmi::Position>)]. *)
Definition sample_grid_body (grid : Grid T) (es : list (key * Position real))
    (s : iterating T) : outcome (iterating T) :=
  let* e := unchecked (es !! it s) in
  let location := e.1 in
  let position := e.2 in
  let grid_value := interpolate_value grid position in
  Returned (mkIterating (it s) (map_insert (built s) location grid_value)).

Definition sample_grid (fuel : nat) (grid : Grid T)
    (sample_positions : gmap key (Position real)) : outcome (gmap key T) :=
  let es := entries sample_positions in
  let* s := while (λ s, (it s <? length es)%nat)
                  (sample_grid_body grid es)
                  fuel (mkIterating 0%nat ∅) in
  Returned (built s).

End Hpp.
End sample_hpp.

(** ** [sample.cpp], the module [gemmi_tools_python] *)

(** A cell [(i, j, k)] of the destination array. *)
Abbreviation cell := (nat * nat * nat)%type (only parsing).

(** The conversion of an [ssize_t] index to a 32-bit [int]: the value
    modulo 2^32, in the range of [int] (what the usual compilers do, and
    what the language fixes from C++20 on). *)
Definition to_int (n : Z) : Z := (n + 2 ^ 31) mod 2 ^ 32 - 2 ^ 31.

(** The key [std::vector<int> point = { i, j, k }] built from a cell: the
    three [ssize_t] indices are narrowed to [int]. *)
Definition cell_key (c : cell) : key :=
  [to_int (Z.of_nat c.1.1); to_int (Z.of_nat c.1.2); to_int (Z.of_nat c.2)].

(** The cells in the order the three nested [for] loops visit them. *)
Definition cells (shape : cell) : list cell :=
  i ← seq 0 shape.1.1; j ← seq 0 shape.1.2; k ← seq 0 shape.2; [(i, j, k)].

(** The three nested loops over [r.shape(0)], [r.shape(1)], [r.shape(2)]. *)
Definition loop3 {S} (body : S → cell → S) (shape : cell) (s : S) : S :=
  foldl (λ s i,
    foldl (λ s j,
      foldl (λ s k, body s (i, j, k)) s (seq 0 shape.2))
      s (seq 0 shape.1.2))
    s (seq 0 shape.1.1).

(** An unchecked read [a(i, j)] of a two-dimensional array, given by its
    rows. *)
Definition at2 {A} (a : list (list A)) (i j : nat) : outcome A :=
  unchecked (a !! i ≫= (.!! j)).

(** The destination [py::array_t<T>], an array of three dimensions: its
    shape, the cells holding a value, and the flag [writeable] of the
    array. *)
Record ndarray3 (T : Type) : Type :=
  mkArray { shape : cell; contents : gmap cell T; writeable : bool }.
Arguments mkArray {T} shape contents writeable.
Arguments shape {T} n.
Arguments contents {T} n.
Arguments writeable {T} n.

(** [sample_array.mutable_unchecked()]: the proxy for unchecked access,
    or, as the comment at the call has it, a throw when
    [flags.writeable] is false. *)
Definition mutable_unchecked {T} (a : ndarray3 T) : outcome (ndarray3 T) :=
  if writeable a then Returned a else Raised NotWriteable.

(** The state of a [fill_array] call: the function's own copy of the map
    (the parameter is passed by value and [operator[]] may grow it), the
    array contents, and the writes [r(i, j, k) = v] done so far, oldest
    first. *)
Record filling (T V : Type) : Type :=
  mkFilling { local_map : gmap key V;
              r : gmap cell T;
              written : list (cell * T) }.
Arguments mkFilling {T V} local_map r written.
Arguments local_map {T V} f.
Arguments r {T V} f.
Arguments written {T V} f.

(** [r(i, j, k) = v]. *)
Definition store {T V : Type} (m : gmap key V) (c : cell) (v : T) (st : filling T V)
    : filling T V :=
  mkFilling m (<[c := v]> (r st)) (written st ++ [(c, v)]).

Section Binding.
Context {T real : Type}.
(** [T()], the value-initialised scalar. *)
Variable T0 : T.
(** The coordinate [0.0] of the default-constructed [gemmi::Position]. *)
Variable real0 : real.
Variable to_real : T → real.
Variable interpolate_value : Grid T → Position real → T.

(** [gemmi::Position()]. *)
Definition Position0 : Position real := mkPosition real0 real0 real0.

(** [get_sample_positions(py::array_t<int>, py::array_t<T>)].  The two
    arrays are given by their rows and taken writeable: the proxies
    [pt] and [ps] are obtained from them without a throw. *)
Definition get_sample_positions (sample_points : list (list Z))
    (sample_positions : list (list T)) : outcome (gmap key (Position real)) :=
  let pt := sample_points in
  let ps := sample_positions in
  for_each (λ points i,
      let* l0 := at2 pt i 0 in
      let* l1 := at2 pt i 0 in
      let* l2 := at2 pt i 1 in
      let* l3 := at2 pt i 2 in
      let location := [l0; l1; l2; l3] in
      let* x := at2 ps i 0 in
      let* y := at2 ps i 1 in
      let* z := at2 ps i 2 in
      let position := mkPosition (to_real x) (to_real y) (to_real z) in
      Returned (map_insert points location position))
    ∅ (seq 0 (length pt)).

(** The body of the loops of [fill_array(sample_array, sample_points, grid)]. *)
Definition fill_array_body (grid : Grid T) (st : filling T (Position real))
    (c : cell) : filling T (Position real) :=
  let point := cell_key c in
  let '(position, m) := map_index Position0 (local_map st) point in
  store m c (interpolate_value grid position) st.

(** [fill_array(py::array_t<T>, std::map<std::vector<int>, gemmi::Position>,
    gemmi::Grid<T>)]: the state at the closing brace. *)
Definition fill_array (sample_array : ndarray3 T)
    (sample_points : gmap key (Position real)) (grid : Grid T)
    : outcome (filling T (Position real)) :=
  let* r := mutable_unchecked sample_array in
  Returned (loop3 (fill_array_body grid) (shape r)
              (mkFilling sample_points (contents r) [])).

(** The body of the loops of [fill_array(sample_array, sample_values)]. *)
Definition fill_array_values_body (st : filling T T) (c : cell) : filling T T :=
  let point := cell_key c in
  let '(value, m) := map_index T0 (local_map st) point in
  store m c value st.

(** [fill_array(py::array_t<T>, std::map<std::vector<int>, T>)]. *)
Definition fill_array_values (sample_array : ndarray3 T)
    (sample_values : gmap key T) : outcome (filling T T) :=
  let* r := mutable_unchecked sample_array in
  Returned (loop3 fill_array_values_body (shape r)
              (mkFilling sample_values (contents r) [])).

(** [get_point_position_map(points, positions)]. *)
Definition get_point_position_map (points : list key)
    (positions : list (list T)) : outcome (gmap key (list T)) :=
  for_each (λ points_positions_map index,
      let* pt := unchecked (points !! index) in
      let* ps := unchecked (positions !! index) in
      Returned (map_insert points_positions_map pt ps))
    ∅ (seq 0 (length points)).

(** The binding [sample]. *)
Definition sample (sample_array : ndarray3 T) (sample_points : list (list Z))
    (sample_positions : list (list T)) (grid : Grid T)
    : outcome (filling T (Position real)) :=
  let* sample_positions_map := get_sample_positions sample_points sample_positions in
  fill_array sample_array sample_positions_map grid.

(** The binding [sample_positions]. *)
Definition sample_positions (sample_array : ndarray3 T)
    (sample_positions_map : gmap key (Position real)) (grid : Grid T)
    : outcome (filling T (Position real)) :=
  fill_array sample_array sample_positions_map grid.

(** The binding [sample_point_positions]; [fuel] bounds the loops of the
    two functions of [sample.hpp] it calls. *)
Definition sample_point_positions (fuel : nat) (sample_array : ndarray3 T)
    (points : list key) (positions : list (list T)) (grid : Grid T)
    : outcome (filling T T) :=
  let* point_positions_map := get_point_position_map points positions in
  let* sample_positions :=
    sample_hpp.get_sample_positions to_real fuel point_positions_map in
  let* sample_values :=
    sample_hpp.sample_grid interpolate_value fuel grid sample_positions in
  fill_array_values sample_array sample_values.

End Binding.

(** ** Vocabulary of the statements *)

(** No construct of the model raises unless a body does. *)
Definition raises {A} (c : outcome A) : Prop := ∃ e, c = Raised e.

(** The first [n] rows of a two-dimensional array exist and have at
    least three columns. *)
Definition rows_of_three {A} (n : nat) (a : list (list A)) : Prop :=
  (n ≤ length a)%nat ∧ Forall (λ row, (3 ≤ length row)%nat) (take n a).

(** The key built from row [i] of the point array. *)
Definition location_of_row (pt : list (list Z)) (i : nat) (k : key) : Prop :=
  ∃ a b c, at2 pt i 0 = Returned a ∧ at2 pt i 1 = Returned b ∧
           at2 pt i 2 = Returned c ∧ k = [a; a; b; c].

(** The position paired with the first occurrence of [k] among the
    points. *)
Definition first_position {T : Type} (points : list key) (positions : list (list T))
    (k : key) : option (list T) :=
  ip ← list_find (λ p, p = k) points; positions !! ip.1.

(** Both loop bodies read the map with [operator[]] and store a function
    of the value read. *)
Definition fill_with {T V : Type} (d : V) (F : V → T) (st : filling T V) (c : cell)
    : filling T V :=
  let '(v, m) := map_index d (local_map st) (cell_key c) in
  store m c (F v) st.

(** The position built from row [i] of the position array. *)
Definition position_of_row {T real : Type} (to_real : T → real)
    (ps : list (list T)) (i : nat) (p : Position real) : Prop :=
  ∃ x y z, at2 ps i 0 = Returned x ∧ at2 ps i 1 = Returned y ∧
           at2 ps i 2 = Returned z ∧
           p = mkPosition (to_real x) (to_real y) (to_real z).

(** ** Concrete inputs

    The grid of the specification's scenarios: 4 x 4 x 4 samples
    [G(u,v,w) = u+v+w] on a cubic cell of side 4. *)

Local Open Scope Qc_scope.

Definition cubic4 : UnitCell :=
  mkUnitCell (Z2Qc 4) (Z2Qc 4) (Z2Qc 4) (Z2Qc 90) (Z2Qc 90) (Z2Qc 90)
    (mkMat33 (Z2Qc 4) 0 0 0 (Z2Qc 4) 0 0 0 (Z2Qc 4))
    (mkMat33 (Q2Qc (1 # 4)) 0 0 0 (Q2Qc (1 # 4)) 0 0 0 (Q2Qc (1 # 4))).

Definition ramp : Grid Qc :=
  mkGrid 4 4 4
    (u ← seqZ 0 4; v ← seqZ 0 4; w ← seqZ 0 4; [Z2Qc (u + v + w)])
    cubic4.

(** The same cell and grid in binary64. *)
Definition cubic4_64 : UnitCell64 :=
  mkUnitCell64
    (mkMat33f (mkPosition 4 0 0) (mkPosition 0 4 0) (mkPosition 0 0 4))%float
    (mkMat33f (mkPosition 0.25 0 0) (mkPosition 0 0.25 0)
              (mkPosition 0 0 0.25))%float.

Definition ramp64 : Grid float :=
  mkGrid 4 4 4
    (u ← seqZ 0 4; v ← seqZ 0 4; w ← seqZ 0 4; [Z2F (u + v + w)])
    cubic4.

(** The binary64 numbers nearest to 0.1 and to 1.1. *)
Definition tenth : float := (1 / 10)%float.
Definition eleven_tenths : float := (11 / 10)%float.

Definition origin : Position Qc := mkPosition 0 0 0.
Definition centre : Position Qc := mkPosition (Z2Qc 2) (Z2Qc 2) (Z2Qc 2).

(** A destination array of shape (1, 1, 1) and one of shape (1, 1, 2),
    writeable, nothing stored yet. *)
Definition one_cell : ndarray3 Qc := mkArray (1, 1, 1)%nat ∅ true.
Definition two_cells : ndarray3 Qc := mkArray (1, 1, 2)%nat ∅ true.

(** One of shape (0, 1, 1): no cell at all. *)
Definition no_cell : ndarray3 Qc := mkArray (0, 1, 1)%nat ∅ true.

(** An array of one cell that is not writeable, and one without a cell
    that is not writeable. *)
Definition read_only_cell : ndarray3 Qc := mkArray (1, 1, 1)%nat ∅ false.
Definition read_only_no_cell : ndarray3 Qc := mkArray (0, 1, 1)%nat ∅ false.

(** Point rows, one pair with the same point twice and one with two
    points, and position rows for them. *)
Definition point_twice : list (list Z) := [[0; 0; 0]%Z; [0; 0; 0]%Z].
Definition two_points : list (list Z) := [[0; 0; 0]%Z; [1; 0; 0]%Z].
Definition one_position : list (list Qc) := [[Z2Qc 1; Z2Qc 1; Z2Qc 1]].
Definition two_positions : list (list Qc) :=
  [[Z2Qc 1; Z2Qc 1; Z2Qc 1]; [Z2Qc 2; Z2Qc 2; Z2Qc 2]].

Local Close Scope Qc_scope.

(** * Properties *)

(** ** Loops, outcomes and maps *)

Lemma while_exit {S} (cond : S → bool) (body : S → outcome S) fuel s :
  cond s = false → while cond body (Datatypes.S fuel) s = Returned s.
Proof. intros H. simpl. by rewrite H. Qed.

(** A loop whose condition holds on an invariant that the body keeps
    does not return, however much fuel it gets. *)
Lemma while_never_returns {S} (cond : S → bool) (body : S → outcome S)
    (Inv : S → Prop) :
  (∀ s, Inv s → cond s = true) →
  (∀ s s', Inv s → body s = Returned s' → Inv s') →
  ∀ fuel s r, Inv s → while cond body fuel s ≠ Returned r.
Proof.
  intros Hcond Hbody fuel. induction fuel as [|fuel IH]; intros s r0 Hs; simpl.
  - discriminate.
  - rewrite (Hcond s Hs). destruct (body s) as [s'| | |] eqn:Hb; simpl;
      try discriminate.
    apply IH. by eapply Hbody.
Qed.

(** When moreover the body always returns, the loop uses up any fuel. *)
Lemma while_out_of_fuel {S} (cond : S → bool) (body : S → outcome S)
    (Inv : S → Prop) :
  (∀ s, Inv s → cond s = true ∧ ∃ s', body s = Returned s' ∧ Inv s') →
  ∀ fuel s, Inv s → while cond body fuel s = OutOfFuel.
Proof.
  intros Hstep fuel. induction fuel as [|fuel IH]; intros s Hs; simpl.
  - done.
  - destruct (Hstep s Hs) as (-> & s' & -> & Hs'). simpl. by apply IH.
Qed.

Lemma entries_Permutation {V} (m : gmap key V) : entries m ≡ₚ map_to_list m.
Proof. apply merge_sort_Permutation. Qed.

Lemma entries_nil {V} (m : gmap key V) : entries m = [] ↔ m = ∅.
Proof.
  rewrite <- map_to_list_empty_iff, <- !Permutation_nil_r.
  by rewrite entries_Permutation.
Qed.

Lemma entries_head {V} (m : gmap key V) :
  m ≠ ∅ → ∃ e, entries m !! 0%nat = Some e ∧ (0 <? length (entries m))%nat = true.
Proof.
  intros Hm. destruct (entries m) as [|e es] eqn:He.
  - by apply entries_nil in He.
  - by exists e.
Qed.

(** A [for] loop over [0 .. n-1] whose body returns and moves an indexed
    invariant from [i] to [i+1] returns, with the invariant at [n]. *)
Lemma for_each_seq_from {S} (body : S → nat → outcome S) (Inv : nat → S → Prop) :
  ∀ (n a : nat) (s : S),
    Inv a s →
    (∀ i s, (a ≤ i < a + n)%nat → Inv i s →
       ∃ s', body s i = Returned s' ∧ Inv (Datatypes.S i) s') →
    ∃ r, for_each body s (seq a n) = Returned r ∧ Inv (a + n)%nat r.
Proof.
  induction n as [|n IH]; intros a s Ha Hstep; simpl.
  - exists s. by rewrite Nat.add_0_r.
  - destruct (Hstep a s ltac:(lia) Ha) as (s' & -> & Hs'). simpl.
    destruct (IH (Datatypes.S a) s' Hs') as (r0 & Hr & Hinv).
    { intros i s0 Hi. apply Hstep. lia. }
    exists r0. split; [done|]. by replace (a + Datatypes.S n)%nat
      with (Datatypes.S a + n)%nat by lia.
Qed.

Lemma for_each_seq {S} (body : S → nat → outcome S) (Inv : nat → S → Prop)
    (n : nat) (s : S) :
  Inv 0%nat s →
  (∀ i s, (i < n)%nat → Inv i s →
     ∃ s', body s i = Returned s' ∧ Inv (Datatypes.S i) s') →
  ∃ r, for_each body s (seq 0 n) = Returned r ∧ Inv n r.
Proof.
  intros H0 Hstep.
  destruct (for_each_seq_from body Inv n 0%nat s H0) as (r0 & Hr & Hinv); [|by exists r0].
  intros i s0 Hi. apply Hstep. lia.
Qed.

(** No construct of the model raises unless a body does. *)
Lemma Returned_no_raise {A} (a : A) : ¬ raises (Returned a).
Proof. by intros [e ?]. Qed.

Lemma unchecked_no_raise {A} (o : option A) : ¬ raises (unchecked o).
Proof. destruct o; by intros [e ?]. Qed.

Lemma obind_no_raise {A B} (c : outcome A) (k : A → outcome B) :
  ¬ raises c → (∀ a, ¬ raises (k a)) → ¬ raises (obind c k).
Proof.
  intros Hc Hk. destruct c as [a|e| |]; simpl; [apply Hk| |by intros [? ?]..].
  intros _. apply Hc. by exists e.
Qed.

Lemma for_each_no_raise {S I} (body : S → I → outcome S) (idx : list I) (s : S) :
  (∀ s i, ¬ raises (body s i)) → ¬ raises (for_each body s idx).
Proof.
  intros Hb. revert s. induction idx as [|i idx IH]; intros s; simpl.
  - apply Returned_no_raise.
  - apply obind_no_raise; [apply Hb|apply IH].
Qed.

Lemma while_no_raise {S} (cond : S → bool) (body : S → outcome S) fuel (s : S) :
  (∀ s, ¬ raises (body s)) → ¬ raises (while cond body fuel s).
Proof.
  intros Hb. revert s. induction fuel as [|fuel IH]; intros s; simpl.
  - by intros [? ?].
  - destruct (cond s); [|apply Returned_no_raise].
    apply obind_no_raise; [apply Hb|apply IH].
Qed.

(** [insert] is the left-biased union with a singleton. *)
Lemma map_insert_union {V} (m : gmap key V) (k : key) (v : V) :
  map_insert m k v = m ∪ {[k := v]}.
Proof.
  unfold map_insert. apply map_eq. intros k'. rewrite lookup_union.
  destruct (m !! k) as [x|] eqn:Hk.
  - destruct (m !! k') eqn:Hk'; [by rewrite union_Some_l|].
    rewrite lookup_singleton_ne; [done|]. congruence.
  - destruct (decide (k = k')) as [<-|Hne].
    + by rewrite lookup_insert_eq, Hk, lookup_singleton_eq.
    + rewrite lookup_insert_ne by done. rewrite lookup_singleton_ne by done.
      by destruct (m !! k').
Qed.

Lemma lookup_map_insert {V} (m : gmap key V) (k k' : key) (v : V) :
  map_insert m k v !! k' =
    match m !! k' with
    | Some x => Some x
    | None => if decide (k = k') then Some v else None
    end.
Proof.
  rewrite map_insert_union, lookup_union. destruct (m !! k') eqn:Hk'.
  - by rewrite union_Some_l.
  - case_decide as Hd; [subst; by rewrite lookup_singleton_eq|].
    by rewrite lookup_singleton_ne.
Qed.

Lemma map_index_fst {V} (d : V) (m : gmap key V) (k : key) :
  (map_index d m k).1 = default d (m !! k).
Proof. unfold map_index. by destruct (m !! k). Qed.

Lemma lookup_map_index {V} (d : V) (m : gmap key V) (k k' : key) :
  (map_index d m k).2 !! k' =
    match m !! k' with
    | Some x => Some x
    | None => if decide (k = k') then Some d else None
    end.
Proof.
  unfold map_index. destruct (m !! k) as [x|] eqn:Hk; simpl.
  - destruct (m !! k') eqn:Hk'; [done|]. case_decide; [congruence|done].
  - destruct (decide (k = k')) as [<-|Hne].
    + by rewrite lookup_insert_eq, Hk.
    + rewrite lookup_insert_ne by done. by destruct (m !! k').
Qed.

(** A default-insertion does not change what [operator[]] reads later. *)
Lemma map_index_default {V} (d : V) (m : gmap key V) (k k' : key) :
  default d ((map_index d m k).2 !! k') = default d (m !! k').
Proof.
  rewrite lookup_map_index. destruct (m !! k'); [done|]. by case_decide.
Qed.

Lemma foldl_bind {A B C} (f : A → C → A) (h : B → list C) (l : list B) (a : A) :
  foldl f a (l ≫= h) = foldl (λ a x, foldl f a (h x)) a l.
Proof.
  revert a. induction l as [|x l IH]; intros a; [done|].
  change ((x :: l) ≫= h) with (h x ++ (l ≫= h)).
  by rewrite foldl_app, IH.
Qed.

(** ** Grid storage *)

Section GridStorage.
Context {T : Type}.
Implicit Types (g : Grid T) (u v w : Z).

Lemma offset_in_range g u v w :
  constructed g → 0 ≤ offset g u v w < Z.of_nat (length (data g)).
Proof.
  intros (Hu & Hv & Hw & Hlen). rewrite Hlen. unfold offset.
  pose proof (Z.mod_pos_bound u (nu g) ltac:(lia)) as Bu.
  pose proof (Z.mod_pos_bound v (nv g) ltac:(lia)) as Bv.
  pose proof (Z.mod_pos_bound w (nw g) ltac:(lia)) as Bw.
  set (a := u mod nu g) in *. set (b := v mod nv g) in *.
  set (c := w mod nw g) in *.
  split; [nia|].
  assert (a * nv g + b ≤ nu g * nv g - 1) by nia.
  nia.
Qed.

Lemma offset_wrapped g u v w :
  offset g (u mod nu g) (v mod nv g) (w mod nw g) = offset g u v w.
Proof. unfold offset. by rewrite !Zmod_mod. Qed.

Lemma offset_shift g u v w a b c :
  offset g (u + a * nu g) (v + b * nv g) (w + c * nw g) = offset g u v w.
Proof. unfold offset. by rewrite !Z_mod_plus_full. Qed.

Lemma grid_at_shift g u v w a b c :
  grid_at g (u + a * nu g) (v + b * nv g) (w + c * nw g) = grid_at g u v w.
Proof. unfold grid_at. by rewrite offset_shift. Qed.

Lemma grid_at_is_Some g u v w : constructed g → is_Some (grid_at g u v w).
Proof.
  intros Hg. pose proof (offset_in_range g u v w Hg) as Hr.
  unfold grid_at, storage_read. rewrite decide_True by lia.
  apply lookup_lt_is_Some. lia.
Qed.

Lemma new_grid_constructed (cell : UnitCell) (n1 n2 n3 : Z) (fill : T) :
  1 ≤ n1 → 1 ≤ n2 → 1 ≤ n3 →
  ∃ g, new_grid cell n1 n2 n3 fill = Returned g ∧ constructed g.
Proof.
  intros H1 H2 H3. unfold new_grid. rewrite decide_True by done.
  eexists; split; [done|]. unfold constructed; simpl.
  rewrite length_replicate. repeat split; try done. nia.
Qed.

(** C9: on a constructed grid (extents at least 1, [nu*nv*nw] stored
    elements) element access takes every integer triple, negative indices
    included: the offset computed from the indices reduced modulo the
    extents lies inside the storage, it is the offset of the reduced
    triple, [at] returns an element (the one of the reduced triple) and
    [set] succeeds, leaves the grid constructed and is read back by [at];
    no access is out of bounds. *)
Theorem grid_index_access_in_bounds g u v w (value : T) :
  constructed g →
  0 ≤ offset g u v w < Z.of_nat (length (data g)) ∧
  (∃ x, grid_at g u v w = Some x ∧
        grid_at g (u mod nu g) (v mod nv g) (w mod nw g) = Some x) ∧
  (∃ g', grid_set g u v w value = Some g' ∧
         constructed g' ∧
         grid_at g' u v w = Some value ∧
         grid_at g' (u mod nu g) (v mod nv g) (w mod nw g) = Some value).
Proof.
  intros Hg. pose proof (offset_in_range g u v w Hg) as Hr.
  split; [done|]. split.
  - destruct (grid_at_is_Some g u v w Hg) as [x Hx]. exists x. split; [done|].
    unfold grid_at in *. by rewrite offset_wrapped.
  - unfold grid_set, storage_write. rewrite decide_True by done.
    eexists; split; [done|].
    assert (Hat : grid_at
      (mkGrid (nu g) (nv g) (nw g)
         (<[Z.to_nat (offset g u v w) := value]> (data g)) (unit_cell g))
      u v w = Some value).
    { unfold grid_at, storage_read.
      change (offset (mkGrid _ _ _ _ _) u v w) with (offset g u v w).
      rewrite decide_True by lia. simpl.
      apply list_lookup_insert_eq. lia. }
    split; [|split; [done|]].
    + destruct Hg as (? & ? & ? & Hlen). unfold constructed; simpl.
      by rewrite length_insert.
    + unfold grid_at in *.
      change (offset (mkGrid ?a ?b ?c ?d ?e) ?x ?y ?z)
        with (offset g x y z) in *.
      by rewrite offset_wrapped.
Qed.

End GridStorage.

(** ** The interpolator *)

Local Open Scope Qc_scope.

Lemma Z2Qc_add (a b : Z) : Z2Qc (a + b) = Z2Qc a + Z2Qc b.
Proof.
  unfold Z2Qc. apply Qc_is_canon. simpl.
  rewrite !Qred_correct. by rewrite inject_Z_plus.
Qed.

Lemma Z2Qc_mul (a b : Z) : Z2Qc (a * b) = Z2Qc a * Z2Qc b.
Proof.
  unfold Z2Qc. apply Qc_is_canon. simpl.
  rewrite !Qred_correct. by rewrite inject_Z_mult.
Qed.

Lemma Qfloor_add_Z (x : Q) (k : Z) :
  Qfloor (x + inject_Z k)%Q = (Qfloor x + k)%Z.
Proof.
  destruct x as [n d]. unfold Qfloor, Qplus, inject_Z; simpl.
  rewrite Pos.mul_1_r, Z.mul_1_r. apply Z_div_plus_full. done.
Qed.

Lemma floorc_add_Z (q : Qc) (k : Z) : floorc (q + Z2Qc k) = (floorc q + k)%Z.
Proof.
  unfold floorc, Z2Qc. rewrite <- Qfloor_add_Z.
  apply Qfloor_comp. simpl. by rewrite !Qred_correct.
Qed.

Lemma corner_term_shift (g : Grid Qc) u0 v0 w0 (a b c : Z) tu tv tw d :
  corner_term g (u0 + a * nu g) (v0 + b * nv g) (w0 + c * nw g) tu tv tw d
  = corner_term g u0 v0 w0 tu tv tw d.
Proof.
  destruct d as [[du dv] dw]. unfold corner_term.
  replace (u0 + a * nu g + Z.b2z du)%Z with (u0 + Z.b2z du + a * nu g)%Z by lia.
  replace (v0 + b * nv g + Z.b2z dv)%Z with (v0 + Z.b2z dv + b * nv g)%Z by lia.
  replace (w0 + c * nw g + Z.b2z dw)%Z with (w0 + Z.b2z dw + c * nw g)%Z by lia.
  by rewrite grid_at_shift.
Qed.

(** A shift of the fractional position by integers leaves the
    interpolated value unchanged. *)
Lemma interpolate_fractional_periodic (g : Grid Qc) (f : Fractional) (n1 n2 n3 : Z) :
  interpolate_fractional g
    (vec_add f (mkPosition (Z2Qc n1) (Z2Qc n2) (Z2Qc n3)))
  = interpolate_fractional g f.
Proof.
  unfold interpolate_fractional, vec_add; cbn [pos_x pos_y pos_z].
  assert (Hs : ∀ (x : Qc) (n e : Z),
    (x + Z2Qc n) * Z2Qc e = x * Z2Qc e + Z2Qc (n * e)).
  { intros. rewrite Z2Qc_mul. ring. }
  rewrite !Hs, !floorc_add_Z.
  assert (Ht : ∀ (y : Qc) (k : Z),
    y + Z2Qc k - Z2Qc (floorc y + k) = y - Z2Qc (floorc y)).
  { intros. rewrite Z2Qc_add. ring. }
  rewrite !Ht.
  erewrite mapM_ext; [done|]. intros d. apply corner_term_shift.
Qed.

Lemma fractionalize_lattice (c : UnitCell) (p : Position Qc) (n1 n2 n3 : Z) :
  UnitCell_valid c →
  fractionalize c (vec_add p (lattice_combination c n1 n2 n3))
  = vec_add (fractionalize c p) (mkPosition (Z2Qc n1) (Z2Qc n2) (Z2Qc n3)).
Proof.
  intros [Hfo _].
  destruct c as [? ? ? ? ? ? O F].
  destruct O as [o11 o12 o13 o21 o22 o23 o31 o32 o33].
  destruct F as [f11 f12 f13 f21 f22 f23 f31 f32 f33].
  destruct p as [px py pz].
  pose proof (f_equal m11 Hfo) as H11. pose proof (f_equal m12 Hfo) as H12.
  pose proof (f_equal m13 Hfo) as H13. pose proof (f_equal m21 Hfo) as H21.
  pose proof (f_equal m22 Hfo) as H22. pose proof (f_equal m23 Hfo) as H23.
  pose proof (f_equal m31 Hfo) as H31. pose proof (f_equal m32 Hfo) as H32.
  pose proof (f_equal m33 Hfo) as H33. clear Hfo.
  unfold mat_mul, mat_id in *.
  cbn [orth frac m11 m12 m13 m21 m22 m23 m31 m32 m33] in *.
  unfold fractionalize, lattice_combination, lattice_a, lattice_b, lattice_c,
    orthogonalize, mat_apply, vec_add, vec_scale.
  cbn [orth frac m11 m12 m13 m21 m22 m23 m31 m32 m33 pos_x pos_y pos_z].
  set (k1 := Z2Qc n1). set (k2 := Z2Qc n2). set (k3 := Z2Qc n3).
  f_equal.
  - transitivity (f11 * px + f12 * py + f13 * pz
      + (k1 * (f11 * o11 + f12 * o21 + f13 * o31)
         + k2 * (f11 * o12 + f12 * o22 + f13 * o32)
         + k3 * (f11 * o13 + f12 * o23 + f13 * o33))); [ring|].
    rewrite H11, H12, H13. ring.
  - transitivity (f21 * px + f22 * py + f23 * pz
      + (k1 * (f21 * o11 + f22 * o21 + f23 * o31)
         + k2 * (f21 * o12 + f22 * o22 + f23 * o32)
         + k3 * (f21 * o13 + f22 * o23 + f23 * o33))); [ring|].
    rewrite H21, H22, H23. ring.
  - transitivity (f31 * px + f32 * py + f33 * pz
      + (k1 * (f31 * o11 + f32 * o21 + f33 * o31)
         + k2 * (f31 * o12 + f32 * o22 + f33 * o32)
         + k3 * (f31 * o13 + f32 * o23 + f33 * o33))); [ring|].
    rewrite H31, H32, H33. ring.
Qed.

Lemma interpolate_fractional_is_Some (g : Grid Qc) (f : Fractional) :
  constructed g → is_Some (interpolate_fractional g f).
Proof.
  intros Hg. unfold interpolate_fractional.
  match goal with |- is_Some (mapM ?h ?l ≫= _) =>
    assert (Hm : is_Some (mapM h l)) end.
  { apply mapM_is_Some, Forall_forall. intros [[du dv] dw] _.
    unfold compose, corner_term.
    match goal with |- is_Some (grid_at g ?a ?b ?c ≫= _) =>
      destruct (grid_at_is_Some g a b c Hg) as [x ->] end.
    by eexists. }
  destruct Hm as [terms ->]. by eexists.
Qed.

(** C7, amended: in exact arithmetic, on a grid with a valid unit cell
    and the storage invariant, interpolation returns a value at every
    position, and the value at [p] is the value at [p] moved by any
    integer combination of the three lattice vectors. *)
Theorem interpolate_periodic (g : Grid Qc) (p : Position Qc) (n1 n2 n3 : Z) :
  UnitCell_valid (unit_cell g) → constructed g →
  is_Some (interpolate g p) ∧
  interpolate g (vec_add p (lattice_combination (unit_cell g) n1 n2 n3))
  = interpolate g p.
Proof.
  intros Hc Hg. unfold interpolate. split.
  - by apply interpolate_fractional_is_Some.
  - rewrite fractionalize_lattice by done.
    apply interpolate_fractional_periodic.
Qed.

Local Close Scope Qc_scope.

(** ** The two loops of [sample.hpp] *)

Section HppFacts.
Context {T real : Type}.
Variable to_real : T → real.
Variable interpolate_value : Grid T → Position real → T.

Lemma sample_grid_empty (fuel : nat) (grid : Grid T) :
  sample_hpp.sample_grid interpolate_value (S fuel) grid ∅ = Returned ∅.
Proof.
  unfold sample_hpp.sample_grid.
  replace (entries (∅ : gmap key (Position real)))
    with (@nil (key * Position real)) by (symmetry; by apply entries_nil).
  by rewrite while_exit.
Qed.

Lemma sample_grid_nonempty (fuel : nat) (grid : Grid T)
    (m : gmap key (Position real)) :
  m ≠ ∅ → sample_hpp.sample_grid interpolate_value fuel grid m = OutOfFuel.
Proof.
  intros Hm. destruct (entries_head m Hm) as (e & He & Hlt).
  unfold sample_hpp.sample_grid.
  rewrite (while_out_of_fuel _ _ (λ s, sample_hpp.it s = 0%nat)); [done| |done].
  intros s Hs. rewrite Hs. split; [done|].
  unfold sample_hpp.sample_grid_body. rewrite Hs, He. simpl. by eexists.
Qed.

Lemma get_sample_positions_empty (fuel : nat) :
  sample_hpp.get_sample_positions to_real (S fuel) ∅ = Returned ∅.
Proof.
  unfold sample_hpp.get_sample_positions.
  replace (entries (∅ : gmap key (list T)))
    with (@nil (key * list T)) by (symmetry; by apply entries_nil).
  by rewrite while_exit.
Qed.

Lemma get_sample_positions_nonempty (fuel : nat) (m : gmap key (list T)) r :
  m ≠ ∅ → sample_hpp.get_sample_positions to_real fuel m ≠ Returned r.
Proof.
  intros Hm. destruct (entries_head m Hm) as (e & He & Hlt).
  unfold sample_hpp.get_sample_positions.
  destruct (while _ _ fuel _) as [s| | |] eqn:Hw; simpl; try discriminate.
  exfalso. revert Hw.
  apply (while_never_returns _ _ (λ s, sample_hpp.it s = 0%nat)); [| |done].
  - intros s0 Hs. by rewrite Hs.
  - intros s0 s' Hs. unfold sample_hpp.get_sample_positions_body.
    destruct (unchecked (entries m !! sample_hpp.it s0)) as [e0| | |]; simpl;
      try discriminate.
    destruct (unchecked (e0.2 !! 0%nat)); simpl; try discriminate.
    destruct (unchecked (e0.2 !! 1%nat)); simpl; try discriminate.
    destruct (unchecked (e0.2 !! 2%nat)); simpl; try discriminate.
    intros [= <-]. done.
Qed.

(** With three coordinates under the first key the first loop, too, uses
    up any fuel. *)
Lemma get_sample_positions_out_of_fuel (fuel : nat) (m : gmap key (list T)) :
  m ≠ ∅ → (∀ k v, m !! k = Some v → (3 ≤ length v)%nat) →
  sample_hpp.get_sample_positions to_real fuel m = OutOfFuel.
Proof.
  intros Hm H3. destruct (entries_head m Hm) as ([k v] & He & Hlt).
  assert (Hv : (3 ≤ length v)%nat).
  { apply (H3 k). apply elem_of_map_to_list. rewrite <- entries_Permutation.
    eapply list_elem_of_lookup_2, He. }
  destruct v as [|p0 [|p1 [|p2 v]]]; simpl in Hv; try lia.
  unfold sample_hpp.get_sample_positions.
  rewrite (while_out_of_fuel _ _ (λ s, sample_hpp.it s = 0%nat)); [done| |done].
  intros s Hs. rewrite Hs. split; [done|].
  unfold sample_hpp.get_sample_positions_body. rewrite Hs, He. simpl. by eexists.
Qed.

(** C3: each of the two functions returns for some amount of fuel exactly
    when its input map is empty (and then returns the empty map after one
    test of the loop condition); on a non-empty map [sample_grid] is
    still looping whatever the fuel, since the body leaves [it] where it
    is. *)
Theorem loops_return_only_on_empty_map
    (positions : gmap key (list T)) (sample_positions : gmap key (Position real))
    (grid : Grid T) :
  ((∃ fuel r, sample_hpp.get_sample_positions to_real fuel positions = Returned r)
     ↔ positions = ∅) ∧
  ((∃ fuel r, sample_hpp.sample_grid interpolate_value fuel grid
                sample_positions = Returned r)
     ↔ sample_positions = ∅) ∧
  (∀ fuel, sample_hpp.get_sample_positions to_real (S fuel) ∅ = Returned ∅) ∧
  (∀ fuel, sample_hpp.sample_grid interpolate_value (S fuel) grid ∅ = Returned ∅) ∧
  (sample_positions ≠ ∅ →
     ∀ fuel, sample_hpp.sample_grid interpolate_value fuel grid
               sample_positions = OutOfFuel).
Proof.
  split; [split|split; [split|split; [|split]]].
  - intros (fuel & r0 & Hr). destruct (decide (positions = ∅)) as [|Hne]; [done|].
    by destruct (get_sample_positions_nonempty fuel positions r0 Hne).
  - intros ->. exists 1%nat, ∅. apply get_sample_positions_empty.
  - intros (fuel & r0 & Hr).
    destruct (decide (sample_positions = ∅)) as [|Hne]; [done|].
    by rewrite (sample_grid_nonempty fuel grid _ Hne) in Hr.
  - intros ->. exists 1%nat, ∅. apply sample_grid_empty.
  - intros fuel. apply get_sample_positions_empty.
  - intros fuel. apply sample_grid_empty.
  - intros Hne fuel. by apply sample_grid_nonempty.
Qed.

End HppFacts.

(** ** The binding file [sample.cpp] *)

Section BindingFacts.
Context {T real : Type}.
Variable T0 : T.
Variable real0 : real.
Variable to_real : T → real.
Variable interpolate_value : Grid T → Position real → T.

(** *** The iteration domain *)

Lemma foldl_pointwise {A B} (f g : A → B → A) (l : list B) (a : A) :
  (∀ a x, f a x = g a x) → foldl f a l = foldl g a l.
Proof.
  intros Hfg. revert a. induction l as [|x l IH]; intros a; simpl; [done|].
  by rewrite Hfg, IH.
Qed.

Lemma loop3_cells {S} (body : S → cell → S) (sh : cell) (s : S) :
  loop3 body sh s = foldl body s (cells sh).
Proof.
  unfold loop3, cells. rewrite foldl_bind.
  apply foldl_pointwise. intros a i. rewrite foldl_bind.
  apply foldl_pointwise. intros a' j. rewrite foldl_bind.
  apply foldl_pointwise. intros a'' k. done.
Qed.

Lemma elem_of_cells (sh : cell) (i j k : nat) :
  (i, j, k) ∈ cells sh ↔ (i < sh.1.1 ∧ j < sh.1.2 ∧ k < sh.2)%nat.
Proof.
  unfold cells. rewrite list_elem_of_bind. split.
  - intros (i' & Hi & Hi'). apply list_elem_of_bind in Hi as (j' & Hj & Hj').
    apply list_elem_of_bind in Hj as (k' & Hk & Hk').
    apply list_elem_of_singleton in Hk as [= -> -> ->].
    apply elem_of_seq in Hi', Hj', Hk'. lia.
  - intros (Hi & Hj & Hk). exists i. split; [|apply elem_of_seq; lia].
    apply list_elem_of_bind. exists j. split; [|apply elem_of_seq; lia].
    apply list_elem_of_bind. exists k. split; [|apply elem_of_seq; lia].
    by apply list_elem_of_singleton.
Qed.

Lemma NoDup_cells (sh : cell) : NoDup (cells sh).
Proof.
  unfold cells. apply NoDup_bind; [| |apply NoDup_seq].
  - intros i i' c _ _ Hc Hc'.
    apply list_elem_of_bind in Hc as (j & Hc & _).
    apply list_elem_of_bind in Hc as (k & Hc & _).
    apply list_elem_of_bind in Hc' as (j' & Hc' & _).
    apply list_elem_of_bind in Hc' as (k' & Hc' & _).
    apply list_elem_of_singleton in Hc, Hc'. congruence.
  - intros i _. apply NoDup_bind; [| |apply NoDup_seq].
    + intros j j' c _ _ Hc Hc'.
      apply list_elem_of_bind in Hc as (k & Hc & _).
      apply list_elem_of_bind in Hc' as (k' & Hc' & _).
      apply list_elem_of_singleton in Hc, Hc'. congruence.
    + intros j _. apply NoDup_bind; [| |apply NoDup_seq].
      * intros k k' c _ _ Hc Hc'.
        apply list_elem_of_singleton in Hc, Hc'. congruence.
      * intros k _. apply NoDup_singleton.
Qed.

Lemma length_cells (sh : cell) :
  length (cells sh) = (sh.1.1 * sh.1.2 * sh.2)%nat.
Proof.
  assert (Hone : ∀ {A B} (h : A → list B) (n : nat) (l : list A),
    (∀ x, length (h x) = n) → length (l ≫= h) = (length l * n)%nat).
  { intros A B h n l Hh. induction l as [|x l IH]; [done|].
    change ((x :: l) ≫= h) with (h x ++ (l ≫= h)).
    rewrite length_app, IH, Hh. simpl. lia. }
  unfold cells.
  rewrite (Hone _ _ _ (sh.1.2 * sh.2)%nat); [rewrite length_seq; lia|].
  intros i. rewrite (Hone _ _ _ sh.2); [by rewrite length_seq|].
  intros j. rewrite (Hone _ _ _ 1%nat); [rewrite length_seq; lia|done].
Qed.

(** The narrowing to [int] keeps an index that fits and always lands in
    the range of [int]. *)
Lemma to_int_small (n : Z) : - 2 ^ 31 ≤ n < 2 ^ 31 → to_int n = n.
Proof. intros Hn. unfold to_int. rewrite Z.mod_small; lia. Qed.

Lemma to_int_range (n : Z) : - 2 ^ 31 ≤ to_int n < 2 ^ 31.
Proof.
  unfold to_int. pose proof (Z.mod_pos_bound (n + 2 ^ 31) (2 ^ 32)). lia.
Qed.

(** Below 2^31 the key of a cell is the triple of its indices. *)
Lemma cell_key_small (i j k : nat) :
  Z.of_nat i < 2 ^ 31 → Z.of_nat j < 2 ^ 31 → Z.of_nat k < 2 ^ 31 →
  cell_key (i, j, k) = [Z.of_nat i; Z.of_nat j; Z.of_nat k].
Proof.
  intros Hi Hj Hk. unfold cell_key; simpl.
  rewrite !to_int_small; [done|lia..].
Qed.

(** *** The two [fill_array] overloads *)

Lemma fill_with_step {V} (d : V) (F : V → T) (st : filling T V) (c : cell) :
  fill_with d F st c =
    mkFilling (map_index d (local_map st) (cell_key c)).2
              (<[c := F (default d (local_map st !! cell_key c))]> (r st))
              (written st ++ [(c, F (default d (local_map st !! cell_key c)))]).
Proof.
  unfold fill_with. rewrite <- map_index_fst.
  by destruct (map_index d (local_map st) (cell_key c)).
Qed.

Lemma fill_with_written {V} (d : V) (F : V → T) (cs : list cell) (st : filling T V) :
  written (foldl (fill_with d F) st cs) =
    written st ++ ((λ c, (c, F (default d (local_map st !! cell_key c)))) <$> cs).
Proof.
  revert st. induction cs as [|c cs IH]; intros st; cbn [foldl fmap list_fmap].
  - by rewrite app_nil_r.
  - rewrite IH, fill_with_step. cbn [written local_map].
    rewrite <- app_assoc. simpl. do 2 f_equal.
    apply list_fmap_ext. intros _ c' _. by rewrite map_index_default.
Qed.

Lemma fill_with_r {V} (d : V) (F : V → T) (cs : list cell) (st : filling T V) (c : cell) :
  r (foldl (fill_with d F) st cs) !! c =
    if decide (c ∈ cs) then Some (F (default d (local_map st !! cell_key c)))
    else r st !! c.
Proof.
  revert st. induction cs as [|c0 cs IH]; intros st; cbn [foldl fmap list_fmap].
  - rewrite decide_False; [done|]. apply not_elem_of_nil.
  - rewrite IH, fill_with_step. cbn [r local_map].
    rewrite map_index_default.
    destruct (decide (c ∈ cs)) as [Hin|Hnin].
    + rewrite decide_True; [done|]. by apply list_elem_of_further.
    + destruct (decide (c0 = c)) as [->|Hne].
      * rewrite lookup_insert_eq. rewrite decide_True; [done|]. apply list_elem_of_here.
      * rewrite lookup_insert_ne by done. rewrite decide_False; [done|].
        intros [?|?]%elem_of_cons; congruence.
Qed.

Lemma fill_with_local_map {V} (d : V) (F : V → T) (cs : list cell)
    (st : filling T V) (k : key) :
  local_map (foldl (fill_with d F) st cs) !! k =
    match local_map st !! k with
    | Some x => Some x
    | None => if decide (k ∈ cell_key <$> cs) then Some d else None
    end.
Proof.
  revert st. induction cs as [|c0 cs IH]; intros st; cbn [foldl fmap list_fmap].
  - destruct (local_map st !! k); [done|].
    rewrite decide_False; [done|]. apply not_elem_of_nil.
  - rewrite IH, fill_with_step. cbn [local_map].
    rewrite lookup_map_index. destruct (local_map st !! k); [done|].
    destruct (decide (cell_key c0 = k)) as [<-|Hne].
    + rewrite decide_True; [done|]. apply list_elem_of_here.
    + destruct (decide (k ∈ cell_key <$> cs)) as [Hin|Hnin].
      * rewrite decide_True; [done|]. by apply list_elem_of_further.
      * rewrite decide_False; [done|].
        intros [?|?]%elem_of_cons; congruence.
Qed.

(** The state in which [fill_array] returns on a writeable array, and
    the throw on any other. *)
Lemma fill_array_returns (sample_array : ndarray3 T)
    (sample_points : gmap key (Position real)) (grid : Grid T) :
  writeable sample_array = true →
  fill_array real0 interpolate_value sample_array sample_points grid =
    Returned (foldl (fill_with (Position0 real0) (interpolate_value grid))
                (mkFilling sample_points (contents sample_array) [])
                (cells (shape sample_array))).
Proof.
  intros Hw. unfold fill_array, mutable_unchecked. rewrite Hw. cbn [obind].
  by rewrite loop3_cells.
Qed.

Lemma fill_array_values_returns (sample_array : ndarray3 T)
    (sample_values : gmap key T) :
  writeable sample_array = true →
  fill_array_values T0 sample_array sample_values =
    Returned (foldl (fill_with T0 id)
                (mkFilling sample_values (contents sample_array) [])
                (cells (shape sample_array))).
Proof.
  intros Hw. unfold fill_array_values, mutable_unchecked. rewrite Hw.
  cbn [obind]. by rewrite loop3_cells.
Qed.

Lemma fill_array_not_writeable (sample_array : ndarray3 T)
    (sample_points : gmap key (Position real)) (grid : Grid T) :
  writeable sample_array = false →
  fill_array real0 interpolate_value sample_array sample_points grid
    = Raised NotWriteable.
Proof. intros Hw. unfold fill_array, mutable_unchecked. by rewrite Hw. Qed.

Lemma fill_array_values_not_writeable (sample_array : ndarray3 T)
    (sample_values : gmap key T) :
  writeable sample_array = false →
  fill_array_values T0 sample_array sample_values = Raised NotWriteable.
Proof. intros Hw. unfold fill_array_values, mutable_unchecked. by rewrite Hw. Qed.

(** C5, amended: a cell without a position in the mapping raises no
    error of its own.  For every array and every mapping the array-driven variant
    (the binding [sample_positions], that is [fill_array]) raises no
    [ShapeMismatchError].  On an array that is not writeable it throws
    "array is not writeable", whatever the mapping.  On a writeable array
    it returns; its writes, U*V*W of them for the shape (U, V, W), go to
    the cells of the array's shape, each cell once, in the order of the
    loops; and a cell whose key (the indices as [int]) the mapping holds
    receives the value interpolated at the mapped position. *)
Theorem sample_positions_returns_and_fills_every_cell
    (sample_array : ndarray3 T) (sample_positions_map : gmap key (Position real))
    (grid : Grid T) :
  (∀ index, sample_positions real0 interpolate_value sample_array
              sample_positions_map grid ≠ Raised (ShapeMismatchError index)) ∧
  (writeable sample_array = false →
     sample_positions real0 interpolate_value sample_array
       sample_positions_map grid = Raised NotWriteable) ∧
  (writeable sample_array = true →
   ∃ st, sample_positions real0 interpolate_value sample_array
           sample_positions_map grid = Returned st ∧
     (written st).*1 = cells (shape sample_array) ∧
     length (written st) =
       ((shape sample_array).1.1 * (shape sample_array).1.2 *
        (shape sample_array).2)%nat ∧
     NoDup (cells (shape sample_array)) ∧
     (∀ i j k, (i, j, k) ∈ cells (shape sample_array) ↔
        (i < (shape sample_array).1.1 ∧ j < (shape sample_array).1.2 ∧
         k < (shape sample_array).2)%nat) ∧
     (∀ c position, c ∈ cells (shape sample_array) →
        sample_positions_map !! cell_key c = Some position →
        (c, interpolate_value grid position) ∈ written st ∧
        r st !! c = Some (interpolate_value grid position))).
Proof.
  unfold sample_positions. split; [|split].
  - intros index. destruct (writeable sample_array) eqn:Hw.
    + by rewrite fill_array_returns.
    + by rewrite fill_array_not_writeable.
  - apply fill_array_not_writeable.
  - intros Hw. rewrite fill_array_returns by done.
    eexists; split; [done|].
    split; [|split; [|split; [apply NoDup_cells|split]]].
    + rewrite fill_with_written. cbn [written local_map app].
      rewrite <- list_fmap_compose. apply list_fmap_id.
    + rewrite fill_with_written. cbn [written local_map app].
      by rewrite length_fmap, length_cells.
    + intros i j k. apply elem_of_cells.
    + intros c position Hc Hm. split.
      * rewrite fill_with_written. cbn [written local_map app].
        apply list_elem_of_fmap. exists c. by rewrite Hm.
      * rewrite fill_with_r. cbn [r local_map].
        rewrite decide_True by done. by rewrite Hm.
Qed.

(** C10, amended: on a writeable array, for a cell [(i, j, k)] of the
    array whose key (the indices as [int]) is in neither map, both
    overloads return: the one driven by positions stores the value
    interpolated at [Position()] in the cell, the one driven by values
    stores [T()], and in both the function's copy of the map holds the
    default under the key afterwards. *)
Theorem fill_array_missing_key_gets_default
    (sample_array : ndarray3 T) (sample_points : gmap key (Position real))
    (sample_values : gmap key T) (grid : Grid T) (i j k : nat) :
  writeable sample_array = true →
  (i < (shape sample_array).1.1 ∧ j < (shape sample_array).1.2 ∧
   k < (shape sample_array).2)%nat →
  sample_points !! cell_key (i, j, k) = None →
  sample_values !! cell_key (i, j, k) = None →
  (∃ st, fill_array real0 interpolate_value sample_array sample_points grid
           = Returned st ∧
     r st !! (i, j, k) = Some (interpolate_value grid (Position0 real0)) ∧
     ((i, j, k), interpolate_value grid (Position0 real0)) ∈ written st ∧
     local_map st !! cell_key (i, j, k) = Some (Position0 real0)) ∧
  (∃ st, fill_array_values T0 sample_array sample_values = Returned st ∧
     r st !! (i, j, k) = Some T0 ∧
     ((i, j, k), T0) ∈ written st ∧
     local_map st !! cell_key (i, j, k) = Some T0).
Proof.
  intros Hw Hin%elem_of_cells Hp Hv.
  split.
  - rewrite fill_array_returns by done. eexists; split; [done|].
    rewrite fill_with_r, fill_with_written, fill_with_local_map.
    cbn [r written local_map app].
    rewrite Hp, !decide_True; [|by apply list_elem_of_fmap_2|done].
    repeat split; [done..|].
    apply list_elem_of_fmap. exists (i, j, k). by rewrite Hp.
  - rewrite fill_array_values_returns by done. eexists; split; [done|].
    rewrite fill_with_r, fill_with_written, fill_with_local_map.
    cbn [r written local_map app].
    rewrite Hv, !decide_True; [|by apply list_elem_of_fmap_2|done].
    repeat split; [done..|].
    apply list_elem_of_fmap. exists (i, j, k). by rewrite Hv.
Qed.

(** *** [get_sample_positions] and the binding [sample] *)

Lemma at2_rows_of_three {A} (n : nat) (a : list (list A)) (i j : nat) :
  rows_of_three n a → (i < n)%nat → (j < 3)%nat → ∃ x, at2 a i j = Returned x.
Proof.
  intros [Hn Hrows] Hi Hj.
  destruct (lookup_lt_is_Some_2 a i ltac:(lia)) as [row Hrow].
  assert (Hlen : (3 ≤ length row)%nat).
  { eapply (proj1 (Forall_lookup _ _) Hrows i). by rewrite lookup_take_lt. }
  destruct (lookup_lt_is_Some_2 row j ltac:(lia)) as [x Hx].
  exists x. unfold at2. rewrite Hrow. simpl. by rewrite Hx.
Qed.

Lemma get_sample_positions_returns (sample_points : list (list Z))
    (sample_positions : list (list T)) :
  rows_of_three (length sample_points) sample_points →
  rows_of_three (length sample_points) sample_positions →
  ∃ m, get_sample_positions to_real sample_points sample_positions = Returned m ∧
    ∀ k, is_Some (m !! k) ↔
      ∃ i, (i < length sample_points)%nat ∧ location_of_row sample_points i k.
Proof.
  intros Hpt Hps. unfold get_sample_positions.
  apply (for_each_seq _ (λ n (m : gmap key (Position real)),
    ∀ k, is_Some (m !! k) ↔
      ∃ i, (i < n)%nat ∧ location_of_row sample_points i k)).
  - intros k. rewrite lookup_empty. split; [by intros [? ?]|].
    intros (i & Hi & _). lia.
  - intros i m Hi Hinv.
    destruct (at2_rows_of_three _ _ i 0 Hpt Hi ltac:(lia)) as [a Ha].
    destruct (at2_rows_of_three _ _ i 1 Hpt Hi ltac:(lia)) as [b Hb].
    destruct (at2_rows_of_three _ _ i 2 Hpt Hi ltac:(lia)) as [c Hc].
    destruct (at2_rows_of_three _ _ i 0 Hps Hi ltac:(lia)) as [x Hx].
    destruct (at2_rows_of_three _ _ i 1 Hps Hi ltac:(lia)) as [y Hy].
    destruct (at2_rows_of_three _ _ i 2 Hps Hi ltac:(lia)) as [z Hz].
    rewrite Ha, Hb, Hc, Hx, Hy, Hz. cbn [obind].
    eexists; split; [done|]. intros k. rewrite lookup_map_insert. split.
    + destruct (m !! k) eqn:Hk.
      * intros _. destruct (proj1 (Hinv k)) as (i' & Hi' & Hloc); [by rewrite Hk|].
        exists i'. split; [lia|done].
      * case_decide as Hd; [|by intros [? ?]]. intros _. exists i.
        split; [lia|]. exists a, b, c. by rewrite Ha, Hb, Hc.
    + intros (i' & Hi' & Hloc). destruct (m !! k) eqn:Hk; [done|].
      destruct (decide (i' = i)) as [->|Hne].
      * destruct Hloc as (a' & b' & c' & Ha' & Hb' & Hc' & ->).
        rewrite Ha in Ha'. rewrite Hb in Hb'. rewrite Hc in Hc'.
        injection Ha' as <-. injection Hb' as <-. injection Hc' as <-.
        by rewrite decide_True.
      * assert (is_Some (m !! k)) as [? ?]; [|congruence].
        apply Hinv. exists i'. split; [lia|done].
Qed.

(** C6: on arrays with three columns in each of the rows read,
    [get_sample_positions] returns a map whose keys are exactly the
    four-component vectors [{pt(i,0), pt(i,0), pt(i,1), pt(i,2)}] of the
    rows [i]; hence it holds nothing under a three-component key
    [{i, j, k}]. *)
Theorem get_sample_positions_keys_have_four_components
    (sample_points : list (list Z)) (sample_positions : list (list T)) :
  rows_of_three (length sample_points) sample_points →
  rows_of_three (length sample_points) sample_positions →
  ∃ m, get_sample_positions to_real sample_points sample_positions = Returned m ∧
    (∀ i, (i < length sample_points)%nat →
       ∃ a b c, at2 sample_points i 0 = Returned a ∧
                at2 sample_points i 1 = Returned b ∧
                at2 sample_points i 2 = Returned c ∧
                is_Some (m !! [a; a; b; c])) ∧
    (∀ loc, is_Some (m !! loc) →
       ∃ i a b c, (i < length sample_points)%nat ∧
                  at2 sample_points i 0 = Returned a ∧
                  at2 sample_points i 1 = Returned b ∧
                  at2 sample_points i 2 = Returned c ∧
                  loc = [a; a; b; c]) ∧
    (∀ i j k : Z, m !! [i; j; k] = None) ∧
    (∀ c : cell, m !! cell_key c = None).
Proof.
  intros Hpt Hps.
  destruct (get_sample_positions_returns _ _ Hpt Hps) as (m & Hm & Hkeys).
  exists m. split; [done|].
  assert (H3 : ∀ i j k : Z, m !! [i; j; k] = None).
  { intros i j k. apply eq_None_not_Some. intros Hs.
    apply Hkeys in Hs as (i' & _ & a & b & c & _ & _ & _ & [=]). }
  split; [|split; [|split; [done|]]].
  - intros i Hi.
    destruct (at2_rows_of_three _ _ i 0 Hpt Hi ltac:(lia)) as [a Ha].
    destruct (at2_rows_of_three _ _ i 1 Hpt Hi ltac:(lia)) as [b Hb].
    destruct (at2_rows_of_three _ _ i 2 Hpt Hi ltac:(lia)) as [c Hc].
    exists a, b, c. repeat split; try done.
    apply Hkeys. exists i. split; [done|]. by exists a, b, c.
  - intros loc Hs. apply Hkeys in Hs as (i & Hi & a & b & c & Ha & Hb & Hc & ->).
    by exists i, a, b, c.
  - intros c. apply H3.
Qed.

(** Whatever the rows say, the binding [sample] stores the value
    interpolated at [Position()] in every cell of a writeable array. *)
Lemma sample_writes_the_default (sample_array : ndarray3 T)
    (sample_points : list (list Z)) (sample_positions : list (list T))
    (grid : Grid T) :
  writeable sample_array = true →
  rows_of_three (length sample_points) sample_points →
  rows_of_three (length sample_points) sample_positions →
  ∃ st, sample real0 to_real interpolate_value sample_array sample_points
          sample_positions grid = Returned st ∧
    written st = (λ c, (c, interpolate_value grid (Position0 real0)))
                   <$> cells (shape sample_array).
Proof.
  intros Hw Hpt Hps.
  destruct (get_sample_positions_returns _ _ Hpt Hps) as (m & Hm & Hkeys).
  unfold sample. rewrite Hm. cbn [obind]. rewrite fill_array_returns by done.
  eexists; split; [done|]. rewrite fill_with_written. cbn [written local_map app].
  apply list_fmap_ext. intros _ c _.
  replace (m !! cell_key c) with (@None (Position real)); [done|].
  symmetry. apply eq_None_not_Some. intros Hs.
  unfold cell_key in Hs.
  apply Hkeys in Hs as (i' & _ & a & b & c' & _ & _ & _ & [=]).
Qed.

(** *** [get_point_position_map] and the binding [sample_point_positions] *)

Lemma first_position_snoc (points : list key) (positions : list (list T))
    (pt : key) (ps : list T) (k : key) :
  (length points ≤ length positions)%nat →
  positions !! length points = Some ps →
  first_position (points ++ [pt]) positions k =
    match first_position points positions k with
    | Some x => Some x
    | None => if decide (pt = k) then Some ps else None
    end.
Proof.
  intros Hlen Hps. unfold first_position.
  destruct (list_find (λ p, p = k) points) as [[i x]|] eqn:Hfind.
  - rewrite (list_find_app_l _ _ _ _ _ Hfind). cbn [mbind option_bind fst].
    apply list_find_Some in Hfind as (Hi & _ & _).
    apply lookup_lt_Some in Hi.
    destruct (lookup_lt_is_Some_2 positions i ltac:(lia)) as [v ->]. done.
  - rewrite list_find_app_r by done. cbn [list_find].
    case_decide as Hd; cbn [fmap option_fmap option_map mbind option_bind].
    + simpl. done.
    + done.
Qed.

Lemma get_point_position_map_returns (points : list key)
    (positions : list (list T)) :
  (length points ≤ length positions)%nat →
  ∃ m, get_point_position_map points positions = Returned m ∧
    ∀ k, m !! k = first_position points positions k.
Proof.
  intros Hlen. unfold get_point_position_map.
  destruct (for_each_seq
    (λ m index,
       let* pt := unchecked (points !! index) in
       let* ps := unchecked (positions !! index) in
       Returned (map_insert m pt ps))
    (λ n (m : gmap key (list T)),
       ∀ k, m !! k = first_position (take n points) positions k)
    (length points) ∅) as (m & Hm & Hinv).
  - intros k. by rewrite lookup_empty.
  - intros i m Hi Hinv.
    destruct (lookup_lt_is_Some_2 points i Hi) as [pt Hpt].
    destruct (lookup_lt_is_Some_2 positions i ltac:(lia)) as [ps Hps].
    rewrite Hpt, Hps. cbn [unchecked obind].
    eexists; split; [done|]. intros k.
    rewrite lookup_map_insert, Hinv, (take_S_r _ _ _ Hpt).
    rewrite (first_position_snoc _ _ pt ps); [done| |].
    + rewrite length_take. lia.
    + rewrite length_take_le by lia. done.
  - exists m. split; [done|]. intros k. rewrite Hinv. by rewrite firstn_all.
Qed.

Lemma hpp_get_sample_positions_no_raise (fuel : nat) (m : gmap key (list T)) :
  ¬ raises (sample_hpp.get_sample_positions to_real fuel m).
Proof.
  unfold sample_hpp.get_sample_positions.
  apply obind_no_raise; [|intros; apply Returned_no_raise].
  apply while_no_raise. intros s. unfold sample_hpp.get_sample_positions_body.
  repeat (apply obind_no_raise; [apply unchecked_no_raise|intros ?]).
  apply Returned_no_raise.
Qed.

Lemma hpp_sample_grid_no_raise (fuel : nat) (grid : Grid T)
    (m : gmap key (Position real)) :
  ¬ raises (sample_hpp.sample_grid interpolate_value fuel grid m).
Proof.
  unfold sample_hpp.sample_grid.
  apply obind_no_raise; [|intros; apply Returned_no_raise].
  apply while_no_raise. intros s. unfold sample_hpp.sample_grid_body.
  apply obind_no_raise; [apply unchecked_no_raise|intros ?].
  apply Returned_no_raise.
Qed.

(** With a point in the list the map of points to positions is not
    empty. *)
Lemma get_point_position_map_nonempty (points : list key)
    (positions : list (list T)) (m : gmap key (list T)) :
  (length points ≤ length positions)%nat → points ≠ [] →
  get_point_position_map points positions = Returned m → m ≠ ∅.
Proof.
  intros Hlen Hne Hm.
  destruct (get_point_position_map_returns points positions Hlen)
    as (m' & Hm' & Hk).
  rewrite Hm in Hm'. injection Hm' as <-.
  destruct points as [|p0 points]; [done|].
  intros ->. specialize (Hk p0). rewrite lookup_empty in Hk.
  unfold first_position in Hk. cbn [list_find] in Hk.
  rewrite decide_True in Hk by done. cbn [mbind option_bind fst] in Hk.
  destruct positions; [simpl in Hlen; lia|done].
Qed.

(** The one error the binding [sample_point_positions] raises, given a
    position for every point: "array is not writeable", on an array that
    is not writeable, and only with an empty list of points (with a point
    in the list the call never gets to [fill_array]). *)
Lemma sample_point_positions_raises_only_not_writeable
    (fuel : nat) (sample_array : ndarray3 T)
    (points : list key) (positions : list (list T)) (grid : Grid T) (e : exn) :
  (length points ≤ length positions)%nat →
  sample_point_positions T0 to_real interpolate_value fuel sample_array
    points positions grid = Raised e →
  e = NotWriteable ∧ points = [] ∧ writeable sample_array = false.
Proof.
  intros Hlen. unfold sample_point_positions.
  destruct (get_point_position_map_returns points positions Hlen)
    as (m & Hm & Hk).
  rewrite Hm. cbn [obind].
  destruct (sample_hpp.get_sample_positions to_real fuel m) as [sp|e'| |] eqn:Hsp;
    cbn [obind]; try done.
  2:{ intros _. destruct (hpp_get_sample_positions_no_raise fuel m).
      rewrite Hsp. by exists e'. }
  assert (Hpoints : points = []).
  { destruct (decide (points = [])) as [|Hne]; [done|].
    pose proof (get_point_position_map_nonempty _ _ _ Hlen Hne Hm) as Hm0.
    by destruct (get_sample_positions_nonempty to_real fuel m sp Hm0). }
  destruct (sample_hpp.sample_grid interpolate_value fuel grid sp)
    as [sv|e'| |] eqn:Hsv; cbn [obind]; try done.
  2:{ intros _. destruct (hpp_sample_grid_no_raise fuel grid sp).
      rewrite Hsv. by exists e'. }
  destruct (writeable sample_array) eqn:Hw.
  - by rewrite fill_array_values_returns.
  - rewrite fill_array_values_not_writeable by done. by intros [= <-].
Qed.

(** C4, amended: a key given twice raises nothing.  With a position for
    every point, [get_point_position_map] returns a map that holds, under
    each key, the position given with the key's first occurrence (later
    occurrences are dropped by [insert]); and the binding
    [sample_point_positions] raises no error on any list with a point
    in it (the one error it raises at all is "array is not writeable",
    on an empty list of points and an array that is not writeable). *)
Theorem get_point_position_map_keeps_first_occurrence
    (points : list key) (positions : list (list T)) :
  (length points ≤ length positions)%nat →
  (∃ m, get_point_position_map points positions = Returned m ∧
     ∀ k, m !! k =
       ip ← list_find (λ p, p = k) points; positions !! ip.1) ∧
  (∀ fuel sample_array grid e,
     sample_point_positions T0 to_real interpolate_value fuel sample_array
       points positions grid = Raised e →
     e = NotWriteable ∧ points = [] ∧ writeable sample_array = false).
Proof.
  intros Hlen. split.
  - destruct (get_point_position_map_returns _ _ Hlen) as (m & Hm & Hk).
    by exists m.
  - intros fuel sample_array grid e.
    by apply sample_point_positions_raises_only_not_writeable.
Qed.

End BindingFacts.

(** ** The interpolator on the grid of the scenarios *)

Local Open Scope Qc_scope.

Lemma cubic4_valid : UnitCell_valid cubic4.
Proof. split; unfold mat_mul, mat_id; simpl; f_equal; by apply Qc_is_canon. Qed.

Lemma ramp_constructed : constructed ramp.
Proof. by repeat split. Qed.

(** The scenarios of the specification, section 8. *)
Example interpolate_at_node : this <$> interpolate ramp centre = Some (6 # 1)%Q.
Proof. vm_compute. reflexivity. Qed.

Example interpolate_half_way :
  this <$> interpolate ramp (mkPosition (Q2Qc (5 # 2)) 0 0) = Some (5 # 2)%Q.
Proof. vm_compute. reflexivity. Qed.

Example interpolate_wrapped :
  this <$> interpolate ramp (orthogonalize cubic4 (mkPosition (Q2Qc (11 # 10)) 0 0))
  = Some (2 # 5)%Q ∧
  this <$> interpolate ramp (orthogonalize cubic4 (mkPosition (Q2Qc (1 # 10)) 0 0))
  = Some (2 # 5)%Q.
Proof. split; vm_compute; reflexivity. Qed.

(** The amended C7 at the grid of the scenarios: the position of
    fractional (0.1, 0, 0) and its image one lattice vector further. *)
Lemma interpolate_periodic_witness :
  UnitCell_valid (unit_cell ramp) ∧ constructed ramp ∧
  is_Some (interpolate ramp (orthogonalize cubic4 (mkPosition (Q2Qc (1 # 10)) 0 0))) ∧
  interpolate ramp
    (vec_add (orthogonalize cubic4 (mkPosition (Q2Qc (1 # 10)) 0 0))
             (lattice_combination (unit_cell ramp) 1 0 0))
  = interpolate ramp (orthogonalize cubic4 (mkPosition (Q2Qc (1 # 10)) 0 0)).
Proof.
  split; [exact cubic4_valid|]. split; [exact ramp_constructed|].
  exact (interpolate_periodic ramp
           (orthogonalize cubic4 (mkPosition (Q2Qc (1 # 10)) 0 0)) 1 0 0
           cubic4_valid ramp_constructed).
Defined.

(** C7 fails in binary64, at the scenario of the specification: on the
    grid of the scenarios the value interpolated at the position of
    fractional (0.1, 0, 0) is 0x1.999999999999ap-2 (0.4 to the nearest),
    the value at the position of fractional (1.1, 0, 0), which is also
    the first position moved by the lattice vector a, is
    0x1.99999999999ap-2, sixteen units in the last place more. *)
Lemma interpolate_not_periodic_in_binary64 :
  interpolate64 cubic4_64 ramp64
    (orthogonalize64 cubic4_64 (mkPosition tenth 0 0)%float)
    = Some 0x1.999999999999ap-2%float ∧
  interpolate64 cubic4_64 ramp64
    (orthogonalize64 cubic4_64 (mkPosition eleven_tenths 0 0)%float)
    = Some 0x1.99999999999ap-2%float ∧
  interpolate64 cubic4_64 ramp64
    (vec_add64 (orthogonalize64 cubic4_64 (mkPosition tenth 0 0)%float)
               (orthogonalize64 cubic4_64 (mkPosition 1 0 0)%float))
    = Some 0x1.99999999999ap-2%float ∧
  PrimFloat.eqb 0x1.999999999999ap-2%float 0x1.99999999999ap-2%float = false.
Proof. repeat split; vm_compute; reflexivity. Qed.

(** C9 at a negative and an overshooting index. *)
Lemma grid_index_access_in_bounds_witness :
  constructed ramp ∧
  (0 ≤ offset ramp (-1) 5 2 < Z.of_nat (length (data ramp)))%Z ∧
  (∃ x, grid_at ramp (-1) 5 2 = Some x ∧
        grid_at ramp ((-1) mod nu ramp) (5 mod nv ramp) (2 mod nw ramp) = Some x) ∧
  (∃ g', grid_set ramp (-1) 5 2 (Z2Qc 9) = Some g' ∧
         constructed g' ∧
         grid_at g' (-1) 5 2 = Some (Z2Qc 9) ∧
         grid_at g' ((-1) mod nu ramp) (5 mod nv ramp) (2 mod nw ramp)
           = Some (Z2Qc 9)).
Proof.
  split; [exact ramp_constructed|].
  exact (grid_index_access_in_bounds ramp (-1) 5 2 (Z2Qc 9) ramp_constructed).
Defined.

Local Close Scope Qc_scope.

(** ** The bindings on the grid of the scenarios *)

Local Open Scope Qc_scope.

(** C1 fails at the array of one cell with the point row [{0, 0, 0}] and
    the position row [{2, 2, 2}]: [sample] returns having stored 0, the
    value at [Position()], as its only write, while the value
    interpolated at the position supplied for the cell is 6.  The key
    built by [get_sample_positions] has four components (C6), so the
    lookup in [fill_array] misses. *)
Theorem sample_ignores_the_supplied_position :
  ∃ st, sample 0 id interpolate_value one_cell [[0; 0; 0]%Z] [[Z2Qc 2; Z2Qc 2; Z2Qc 2]] ramp
          = Returned st ∧
        (λ w, (w.1, this w.2)) <$> written st = [((0, 0, 0)%nat, (0 # 1)%Q)] ∧
        this <$> interpolate ramp (mkPosition (Z2Qc 2) (Z2Qc 2) (Z2Qc 2))
          = Some (6 # 1)%Q.
Proof.
  destruct (sample_writes_the_default 0 id interpolate_value one_cell
              [[0; 0; 0]%Z] [[Z2Qc 2; Z2Qc 2; Z2Qc 2]] ramp) as (st & Hst & Hw).
  - reflexivity.
  - split; [simpl; lia|]. repeat constructor.
  - split; [simpl; lia|]. repeat constructor.
  - exists st. split; [done|]. rewrite Hw. split; vm_compute; reflexivity.
Qed.

(** C2 fails at a map of two keys: whatever the fuel, [sample_grid] has
    not returned, and one run of the loop body from the initial state
    leaves [it] at the first entry, with that entry's key as the only
    key of the map being built. *)
Theorem sample_grid_never_returns_on_two_keys (fuel : nat) :
  sample_hpp.sample_grid interpolate_value fuel ramp
    (<[ [0; 0; 0]%Z := origin ]> {[ [1; 0; 0]%Z := centre ]}) = OutOfFuel ∧
  sample_hpp.sample_grid_body interpolate_value ramp
    (entries (<[ [0; 0; 0]%Z := origin ]> {[ [1; 0; 0]%Z := centre ]}))
    (sample_hpp.mkIterating 0 ∅)
  = Returned (sample_hpp.mkIterating 0 {[ [0; 0; 0]%Z := interpolate_value ramp origin ]}).
Proof.
  split.
  - apply sample_grid_nonempty. apply insert_non_empty.
  - vm_compute. reflexivity.
Qed.

(** C4 fails at the key [{0, 0, 0}] given twice, with the positions
    [{1, 1, 1}] and [{2, 2, 2}]: [get_point_position_map] returns, the
    map holding the first position under the key, and
    [sample_point_positions] is in the loop of [get_sample_positions]
    whatever the fuel; no error is raised. *)
Lemma duplicate_key_raises_nothing :
  get_point_position_map [[0; 0; 0]%Z; [0; 0; 0]%Z]
      [[Z2Qc 1; Z2Qc 1; Z2Qc 1]; [Z2Qc 2; Z2Qc 2; Z2Qc 2]]
    = Returned {[ [0; 0; 0]%Z := [Z2Qc 1; Z2Qc 1; Z2Qc 1] ]} ∧
  (∀ fuel, sample_point_positions 0 id interpolate_value fuel one_cell
             [[0; 0; 0]%Z; [0; 0; 0]%Z]
             [[Z2Qc 1; Z2Qc 1; Z2Qc 1]; [Z2Qc 2; Z2Qc 2; Z2Qc 2]] ramp
           = OutOfFuel).
Proof.
  assert (Hmap : get_point_position_map [[0; 0; 0]%Z; [0; 0; 0]%Z]
      [[Z2Qc 1; Z2Qc 1; Z2Qc 1]; [Z2Qc 2; Z2Qc 2; Z2Qc 2]]
    = Returned {[ [0; 0; 0]%Z := [Z2Qc 1; Z2Qc 1; Z2Qc 1] ]}).
  { vm_compute. reflexivity. }
  split; [done|]. intros fuel. unfold sample_point_positions.
  rewrite Hmap. cbn [obind].
  rewrite get_sample_positions_out_of_fuel; [done| |].
  - apply insert_non_empty.
  - intros k v [<- <-]%lookup_singleton_Some. simpl. lia.
Qed.

(** The amended C4 at the same input. *)
Lemma get_point_position_map_keeps_first_occurrence_witness :
  (length [[0; 0; 0]%Z; [0; 0; 0]%Z]
     ≤ length [[Z2Qc 1; Z2Qc 1; Z2Qc 1]; [Z2Qc 2; Z2Qc 2; Z2Qc 2]])%nat ∧
  (∃ m, get_point_position_map [[0; 0; 0]%Z; [0; 0; 0]%Z]
          [[Z2Qc 1; Z2Qc 1; Z2Qc 1]; [Z2Qc 2; Z2Qc 2; Z2Qc 2]] = Returned m ∧
     ∀ k, m !! k =
       ip ← list_find (λ p, p = k) [[0; 0; 0]%Z; [0; 0; 0]%Z];
       [[Z2Qc 1; Z2Qc 1; Z2Qc 1]; [Z2Qc 2; Z2Qc 2; Z2Qc 2]] !! ip.1) ∧
  (∀ fuel sample_array grid e,
     sample_point_positions 0 id interpolate_value fuel sample_array
       [[0; 0; 0]%Z; [0; 0; 0]%Z]
       [[Z2Qc 1; Z2Qc 1; Z2Qc 1]; [Z2Qc 2; Z2Qc 2; Z2Qc 2]] grid = Raised e →
     e = NotWriteable ∧ [[0; 0; 0]%Z; [0; 0; 0]%Z] = [] ∧
     writeable sample_array = false).
Proof.
  split; [simpl; lia|].
  apply (get_point_position_map_keeps_first_occurrence 0 id interpolate_value
           [[0; 0; 0]%Z; [0; 0; 0]%Z]
           [[Z2Qc 1; Z2Qc 1; Z2Qc 1]; [Z2Qc 2; Z2Qc 2; Z2Qc 2]]).
  simpl; lia.
Defined.

(** C5 fails at the array of two cells with a mapping that holds a
    position for the cell (0, 0, 0) only: the binding returns, having
    stored 6 (the value at the mapped position) in the first cell and 0
    (the value at [Position()]) in the cell (0, 0, 1); no error is
    raised. *)
Lemma missing_cell_raises_nothing :
  ({[ [0; 0; 0]%Z := centre ]} : gmap (list Z) (Position Qc)) !! [0; 0; 1]%Z = None ∧
  ∃ st, sample_positions 0 interpolate_value two_cells {[ [0; 0; 0]%Z := centre ]} ramp
          = Returned st ∧
        (λ w, (w.1, this w.2)) <$> written st
          = [((0, 0, 0)%nat, (6 # 1)%Q); ((0, 0, 1)%nat, (0 # 1)%Q)].
Proof.
  split; [done|]. unfold sample_positions.
  rewrite fill_array_returns by reflexivity.
  eexists; split; [done|]. rewrite fill_with_written. vm_compute. reflexivity.
Qed.

(** C6 at two rows. *)
Lemma get_sample_positions_keys_have_four_components_witness :
  rows_of_three 2 [[0; 0; 0]%Z; [1; 2; 3]%Z] ∧
  rows_of_three 2 [[Z2Qc 1; Z2Qc 1; Z2Qc 1]; [Z2Qc 2; Z2Qc 2; Z2Qc 2]] ∧
  ∃ m, get_sample_positions id [[0; 0; 0]%Z; [1; 2; 3]%Z]
         [[Z2Qc 1; Z2Qc 1; Z2Qc 1]; [Z2Qc 2; Z2Qc 2; Z2Qc 2]] = Returned m ∧
    (∀ i, (i < 2)%nat →
       ∃ a b c, at2 [[0; 0; 0]%Z; [1; 2; 3]%Z] i 0 = Returned a ∧
                at2 [[0; 0; 0]%Z; [1; 2; 3]%Z] i 1 = Returned b ∧
                at2 [[0; 0; 0]%Z; [1; 2; 3]%Z] i 2 = Returned c ∧
                is_Some (m !! [a; a; b; c])) ∧
    (∀ loc, is_Some (m !! loc) →
       ∃ i a b c, (i < 2)%nat ∧
                  at2 [[0; 0; 0]%Z; [1; 2; 3]%Z] i 0 = Returned a ∧
                  at2 [[0; 0; 0]%Z; [1; 2; 3]%Z] i 1 = Returned b ∧
                  at2 [[0; 0; 0]%Z; [1; 2; 3]%Z] i 2 = Returned c ∧
                  loc = [a; a; b; c]) ∧
    (∀ i j k : Z, m !! [i; j; k] = None) ∧
    (∀ c : nat * nat * nat, m !! cell_key c = None).
Proof.
  assert (H1 : rows_of_three 2 [[0; 0; 0]%Z; [1; 2; 3]%Z]).
  { split; [simpl; lia|]. repeat constructor. }
  assert (H2 : rows_of_three 2 [[Z2Qc 1; Z2Qc 1; Z2Qc 1]; [Z2Qc 2; Z2Qc 2; Z2Qc 2]]).
  { split; [simpl; lia|]. repeat constructor. }
  split; [exact H1|]. split; [exact H2|].
  exact (get_sample_positions_keys_have_four_components id
           [[0; 0; 0]%Z; [1; 2; 3]%Z]
           [[Z2Qc 1; Z2Qc 1; Z2Qc 1]; [Z2Qc 2; Z2Qc 2; Z2Qc 2]] H1 H2).
Defined.

(** C10 fails at an array that is not writeable: with the key of its
    one cell absent from the map, both overloads throw "array is not
    writeable". *)
Lemma fill_array_read_only_raises :
  (∅ : gmap (list Z) (Position Qc)) !! cell_key (0, 0, 0)%nat = None ∧
  (∅ : gmap (list Z) Qc) !! cell_key (0, 0, 0)%nat = None ∧
  fill_array 0 interpolate_value read_only_cell ∅ ramp = Raised NotWriteable ∧
  fill_array_values 0 read_only_cell ∅ = Raised NotWriteable.
Proof. by repeat split. Qed.

(** The amended C10 at the cell (0, 0, 1) of the writeable array of two
    cells, absent from both maps. *)
Lemma fill_array_missing_key_gets_default_witness :
  writeable two_cells = true ∧
  (0 < 1 ∧ 0 < 1 ∧ 1 < 2)%nat ∧
  ({[ [0; 0; 0]%Z := centre ]} : gmap (list Z) (Position Qc))
    !! cell_key (0, 0, 1)%nat = None ∧
  (∅ : gmap (list Z) Qc) !! cell_key (0, 0, 1)%nat = None ∧
  (∃ st, fill_array 0 interpolate_value two_cells {[ [0; 0; 0]%Z := centre ]} ramp
           = Returned st ∧
     r st !! (0, 0, 1)%nat = Some (interpolate_value ramp (Position0 0)) ∧
     ((0, 0, 1)%nat, interpolate_value ramp (Position0 0)) ∈ written st ∧
     local_map st !! cell_key (0, 0, 1)%nat = Some (Position0 0)) ∧
  (∃ st, fill_array_values 0 two_cells ∅ = Returned st ∧
     r st !! (0, 0, 1)%nat = Some 0 ∧
     ((0, 0, 1)%nat, 0) ∈ written st ∧
     local_map st !! cell_key (0, 0, 1)%nat = Some 0).
Proof.
  split; [reflexivity|]. split; [lia|]. split; [done|]. split; [done|].
  apply (fill_array_missing_key_gets_default 0 0 interpolate_value two_cells
           {[ [0; 0; 0]%Z := centre ]} ∅ ramp 0 0 1);
    [reflexivity|simpl; lia|done|done].
Defined.

Local Close Scope Qc_scope.

(** * Further properties of the sources *)

(** ** Loops that stop at an unchecked read *)

Lemma for_each_app {S I} (body : S → I → outcome S) (l1 l2 : list I) (s : S) :
  for_each body s (l1 ++ l2) =
    let* s' := for_each body s l1 in for_each body s' l2.
Proof.
  revert s. induction l1 as [|i l1 IH]; intros s; simpl; [done|].
  destruct (body s i); simpl; [apply IH|done..].
Qed.

(** A [for] loop whose body returns up to index [i] and has undefined
    behaviour at [i] has undefined behaviour. *)
Lemma for_each_seq_undefined {S} (body : S → nat → outcome S) (n i : nat) (s : S) :
  (i < n)%nat →
  (∀ j s, (j < i)%nat → ∃ s', body s j = Returned s') →
  (∀ s, body s i = Undefined) →
  for_each body s (seq 0 n) = Undefined.
Proof.
  intros Hi Hret Hundef.
  replace n with (i + (n - i))%nat by lia. rewrite seq_app, for_each_app.
  destruct (for_each_seq body (λ _ _, True) i s I) as (s' & -> & _).
  { intros j s0 Hj _. destruct (Hret j s0 Hj) as [s1 ->]. by exists s1. }
  cbn [obind]. destruct (n - i)%nat as [|k] eqn:Hk; [lia|].
  cbn [seq for_each]. rewrite Nat.add_0_l. by rewrite Hundef.
Qed.

(** ** Further properties of the binding file *)

Section BindingFurther.
Context {T real : Type}.
Variable T0 : T.
Variable real0 : real.
Variable to_real : T → real.
Variable interpolate_value : Grid T → Position real → T.

Lemma location_of_row_unique (pt : list (list Z)) (i : nat) (k k' : key) :
  location_of_row pt i k → location_of_row pt i k' → k = k'.
Proof.
  intros (a & b & c & Ha & Hb & Hc & ->) (a' & b' & c' & Ha' & Hb' & Hc' & ->).
  congruence.
Qed.

Lemma position_of_row_unique (ps : list (list T)) (i : nat) (p p' : Position real) :
  position_of_row to_real ps i p → position_of_row to_real ps i p' → p = p'.
Proof.
  intros (a & b & c & Ha & Hb & Hc & ->) (a' & b' & c' & Ha' & Hb' & Hc' & ->).
  congruence.
Qed.

(** X1: on arrays with three columns in each of the rows read, the map
    that [get_sample_positions] returns holds a position [p] under a key
    [k] exactly when [p] is the position of the first row whose point
    gives the key [k]: [insert] never replaces the position of an
    earlier row. *)
Theorem get_sample_positions_first_row_wins
    (sample_points : list (list Z)) (sample_positions : list (list T)) :
  rows_of_three (length sample_points) sample_points →
  rows_of_three (length sample_points) sample_positions →
  ∃ m, get_sample_positions to_real sample_points sample_positions = Returned m ∧
    ∀ k p, m !! k = Some p ↔
      ∃ i, (i < length sample_points)%nat ∧
           location_of_row sample_points i k ∧
           position_of_row to_real sample_positions i p ∧
           ∀ j, (j < i)%nat → ¬ location_of_row sample_points j k.
Proof.
  intros Hpt Hps. unfold get_sample_positions.
  destruct (for_each_seq
    (λ (points : gmap key (Position real)) i,
       let* l0 := at2 sample_points i 0 in
       let* l1 := at2 sample_points i 0 in
       let* l2 := at2 sample_points i 1 in
       let* l3 := at2 sample_points i 2 in
       let* x := at2 sample_positions i 0 in
       let* y := at2 sample_positions i 1 in
       let* z := at2 sample_positions i 2 in
       Returned (map_insert points [l0; l1; l2; l3]
                   (mkPosition (to_real x) (to_real y) (to_real z))))
    (λ n (m : gmap key (Position real)),
       (∀ k, is_Some (m !! k) ↔
          ∃ i, (i < n)%nat ∧ location_of_row sample_points i k) ∧
       (∀ k p, m !! k = Some p ↔
          ∃ i, (i < n)%nat ∧ location_of_row sample_points i k ∧
               position_of_row to_real sample_positions i p ∧
               ∀ j, (j < i)%nat → ¬ location_of_row sample_points j k))
    (length sample_points) ∅) as (m & Hm & _ & Hinv).
  - split.
    + intros k. rewrite lookup_empty. split; [by intros [? ?]|].
      intros (i & Hi & _). lia.
    + intros k p. rewrite lookup_empty. split; [done|].
      intros (i & Hi & _). lia.
  - intros i m Hi [Hkeys Hvals].
    destruct (at2_rows_of_three _ _ i 0 Hpt Hi ltac:(lia)) as [a Ha].
    destruct (at2_rows_of_three _ _ i 1 Hpt Hi ltac:(lia)) as [b Hb].
    destruct (at2_rows_of_three _ _ i 2 Hpt Hi ltac:(lia)) as [c Hc].
    destruct (at2_rows_of_three _ _ i 0 Hps Hi ltac:(lia)) as [x Hx].
    destruct (at2_rows_of_three _ _ i 1 Hps Hi ltac:(lia)) as [y Hy].
    destruct (at2_rows_of_three _ _ i 2 Hps Hi ltac:(lia)) as [z Hz].
    rewrite Ha, Hb, Hc, Hx, Hy, Hz. cbn [obind].
    assert (HL : location_of_row sample_points i [a; a; b; c]).
    { by exists a, b, c. }
    assert (HP : position_of_row to_real sample_positions i
                   (mkPosition (to_real x) (to_real y) (to_real z))).
    { by exists x, y, z. }
    eexists; split; [done|]. split.
    + intros k. rewrite lookup_map_insert. split.
      * destruct (m !! k) eqn:Hk.
        -- intros _. destruct (proj1 (Hkeys k)) as (i' & Hi' & Hloc); [by rewrite Hk|].
           exists i'. split; [lia|done].
        -- case_decide as Hd; [|by intros [? ?]]. subst k. intros _.
           exists i. split; [lia|done].
      * intros (i' & Hi' & Hloc). destruct (m !! k) eqn:Hk; [done|].
        destruct (decide (i' = i)) as [->|Hne].
        -- rewrite decide_True; [done|]. by eapply location_of_row_unique.
        -- assert (is_Some (m !! k)) as [? ?]; [|congruence].
           apply Hkeys. exists i'. split; [lia|done].
    + intros k p. rewrite lookup_map_insert. split.
      * destruct (m !! k) as [p0|] eqn:Hk.
        -- intros [= ->]. apply Hvals in Hk as (i' & Hi' & Hrest).
           exists i'. split; [lia|done].
        -- case_decide as Hd; [|done]. subst k. intros [= <-].
           exists i. split; [lia|]. split; [done|]. split; [done|].
           intros j Hj Hloc.
           assert (is_Some (m !! [a; a; b; c])) as [? ?]; [|congruence].
           apply Hkeys. by exists j.
      * intros (i' & Hi' & Hloc & Hpos & Hfirst).
        destruct (decide (i' = i)) as [->|Hne].
        -- assert (Hk : m !! k = None).
           { apply eq_None_not_Some. intros (j & Hj & Hj')%Hkeys.
             by apply (Hfirst j). }
           rewrite Hk, decide_True by (by eapply location_of_row_unique).
           f_equal. by eapply position_of_row_unique.
        -- assert (Hk : m !! k = Some p).
           { apply Hvals. exists i'. split; [lia|done]. }
           by rewrite Hk.
  - by exists m.
Qed.


(** X3: with a position for every point, the key set of the map that
    [get_point_position_map] returns is the set of the points; when no
    point occurs twice the map has as many entries as there are points
    and holds, under each point, the position at the same index. *)
Theorem get_point_position_map_key_set
    (points : list key) (positions : list (list T)) :
  (length points ≤ length positions)%nat →
  ∃ m, get_point_position_map points positions = Returned m ∧
    dom m = list_to_set points ∧
    (NoDup points →
       size m = length points ∧
       ∀ i pt, points !! i = Some pt → m !! pt = positions !! i).
Proof.
  intros Hlen.
  destruct (get_point_position_map_returns points positions Hlen)
    as (m & Hm & Hk).
  exists m. split; [done|].
  assert (Hdom : dom m = list_to_set points).
  { apply set_eq. intros k.
    rewrite elem_of_dom, elem_of_list_to_set, Hk. unfold first_position.
    split.
    - intros [v Hv].
      destruct (list_find (λ p, p = k) points) as [[i x]|] eqn:Hfind; [|done].
      apply list_find_Some in Hfind as (Hi & -> & _).
      by eapply list_elem_of_lookup_2.
    - intros Hin.
      destruct (list_find_elem_of (λ p, p = k) points k Hin eq_refl)
        as [[i x] Hfind].
      rewrite Hfind. cbn [mbind option_bind fst].
      apply list_find_Some in Hfind as (Hi & _ & _).
      apply lookup_lt_Some in Hi. apply lookup_lt_is_Some. lia. }
  split; [done|]. intros Hnodup. split.
  - rewrite <- size_dom, Hdom. by apply size_list_to_set.
  - intros i pt Hi. rewrite Hk. unfold first_position.
    assert (Hfind : list_find (λ p, p = pt) points = Some (i, pt)).
    { apply list_find_Some. split; [done|]. split; [done|].
      intros j y Hj Hlt ->.
      pose proof (NoDup_lookup _ _ _ _ Hnodup Hi Hj). lia. }
    by rewrite Hfind.
Qed.

(** X4: with fewer positions than points, [get_point_position_map] reads
    [positions[index]] past the end of the vector: the behaviour is
    undefined, for it and for the binding [sample_point_positions]. *)
Theorem get_point_position_map_short_positions
    (fuel : nat) (sample_array : ndarray3 T)
    (points : list key) (positions : list (list T)) (grid : Grid T) :
  (length positions < length points)%nat →
  get_point_position_map points positions = Undefined ∧
  sample_point_positions T0 to_real interpolate_value fuel sample_array
    points positions grid = Undefined.
Proof.
  intros Hlt.
  assert (Hg : get_point_position_map points positions = Undefined).
  { unfold get_point_position_map.
    apply (for_each_seq_undefined _ _ (length positions)); [done| |].
    - intros j m Hj.
      destruct (lookup_lt_is_Some_2 points j ltac:(lia)) as [pt ->].
      destruct (lookup_lt_is_Some_2 positions j Hj) as [ps ->].
      cbn [unchecked obind]. by eexists.
    - intros m.
      destruct (lookup_lt_is_Some_2 points (length positions) Hlt) as [pt ->].
      by rewrite (lookup_ge_None_2 positions (length positions)). }
  split; [done|]. unfold sample_point_positions. by rewrite Hg.
Qed.

(** X5: on a writeable array [fill_array(sample_array, sample_values)]
    returns.  It writes once to each cell of the shape, in the order of
    the loops, the value the map holds under the cell's key (the indices
    as [int]), and [T()] where the map holds none; afterwards a cell of
    the shape holds the value written and any other cell what it held
    before; and no entry of the map is changed. *)
Theorem fill_array_values_writes_the_mapped_values
    (sample_array : ndarray3 T) (sample_values : gmap key T) :
  writeable sample_array = true →
  ∃ st, fill_array_values T0 sample_array sample_values = Returned st ∧
    written st = (λ c, (c, default T0 (sample_values !! cell_key c)))
                   <$> cells (shape sample_array) ∧
    (∀ c, r st !! c =
       if decide (c ∈ cells (shape sample_array))
       then Some (default T0 (sample_values !! cell_key c))
       else contents sample_array !! c) ∧
    (∀ k v, sample_values !! k = Some v → local_map st !! k = Some v).
Proof.
  intros Hw. rewrite fill_array_values_returns by done.
  eexists; split; [done|]. split; [|split].
  - by rewrite fill_with_written.
  - intros c. by rewrite fill_with_r.
  - intros k v Hk. rewrite fill_with_local_map. cbn [local_map]. by rewrite Hk.
Qed.

(** X6: on a writeable array
    [fill_array(sample_array, sample_points, grid)] reads the map under
    the keys of the array's cells only (the indices as [int]): two maps
    that agree on those keys give the same writes and the same array,
    whatever else they hold (keys of another length, keys of cells
    outside the shape). *)
Theorem fill_array_reads_cell_keys_only
    (sample_array : ndarray3 T) (m1 m2 : gmap key (Position real))
    (grid : Grid T) :
  writeable sample_array = true →
  (∀ c, c ∈ cells (shape sample_array) → m1 !! cell_key c = m2 !! cell_key c) →
  ∃ st1 st2,
    fill_array real0 interpolate_value sample_array m1 grid = Returned st1 ∧
    fill_array real0 interpolate_value sample_array m2 grid = Returned st2 ∧
    written st1 = written st2 ∧ r st1 = r st2.
Proof.
  intros Hw Hagree. rewrite !fill_array_returns by done.
  eexists _, _. split; [done|]. split; [done|]. split.
  - rewrite !fill_with_written. cbn [written local_map app].
    apply list_fmap_ext. intros i c Hc.
    apply list_elem_of_lookup_2 in Hc. by rewrite (Hagree c Hc).
  - apply map_eq. intros c. rewrite !fill_with_r. cbn [r local_map].
    case_decide as Hc; [|done]. by rewrite (Hagree c Hc).
Qed.

(** X7: on a writeable array the two ways to fill it from a map of
    positions, directly with
    [fill_array(sample_array, sample_points, grid)] or with
    [fill_array(sample_array, sample_values)] on the values interpolated
    at the positions, store the same value in every cell whose key (the
    indices as [int]) the map holds.  In a cell of the shape whose key
    the map lacks the first stores the value interpolated at
    [Position()] and the second [T()]; cells outside the shape are left
    alone by both. *)
Theorem fill_array_overloads_agree_on_mapped_cells
    (sample_array : ndarray3 T) (sample_points : gmap key (Position real))
    (grid : Grid T) :
  writeable sample_array = true →
  ∃ st1 st2,
    fill_array real0 interpolate_value sample_array sample_points grid
      = Returned st1 ∧
    fill_array_values T0 sample_array (interpolate_value grid <$> sample_points)
      = Returned st2 ∧
    (∀ c, is_Some (sample_points !! cell_key c) → r st1 !! c = r st2 !! c) ∧
    (∀ c, c ∈ cells (shape sample_array) →
       sample_points !! cell_key c = None →
       r st1 !! c = Some (interpolate_value grid (Position0 real0)) ∧
       r st2 !! c = Some T0) ∧
    (∀ c, c ∉ cells (shape sample_array) →
       r st1 !! c = contents sample_array !! c ∧
       r st2 !! c = contents sample_array !! c).
Proof.
  intros Hw. rewrite fill_array_returns, fill_array_values_returns by done.
  eexists _, _. split; [done|]. split; [done|]. split; [|split].
  - intros c [p Hp]. rewrite !fill_with_r. cbn [r local_map].
    rewrite lookup_fmap, Hp. by case_decide.
  - intros c Hc Hnone. rewrite !fill_with_r. cbn [r local_map].
    rewrite lookup_fmap, Hnone, !decide_True by done. done.
  - intros c Hc. rewrite !fill_with_r. cbn [r local_map].
    by rewrite !decide_False by done.
Qed.


(** X9: on an array with an extent of zero both overloads of
    [fill_array] make no write.  On a writeable one they return, the
    array and the function's copy of the map as they were; on one that
    is not writeable they throw "array is not writeable" all the same,
    the check coming before the loops. *)
Theorem fill_array_empty_shape
    (sample_array : ndarray3 T) (sample_points : gmap key (Position real))
    (sample_values : gmap key T) (grid : Grid T) :
  ((shape sample_array).1.1 = 0 ∨ (shape sample_array).1.2 = 0 ∨
   (shape sample_array).2 = 0)%nat →
  (writeable sample_array = true →
     fill_array real0 interpolate_value sample_array sample_points grid
       = Returned (mkFilling sample_points (contents sample_array) []) ∧
     fill_array_values T0 sample_array sample_values
       = Returned (mkFilling sample_values (contents sample_array) [])) ∧
  (writeable sample_array = false →
     fill_array real0 interpolate_value sample_array sample_points grid
       = Raised NotWriteable ∧
     fill_array_values T0 sample_array sample_values = Raised NotWriteable).
Proof.
  intros Hzero.
  assert (Hcells : cells (shape sample_array) = []).
  { apply elem_of_nil_inv. intros [[i j] k] Hin%elem_of_cells. lia. }
  split.
  - intros Hw.
    by rewrite fill_array_returns, fill_array_values_returns, Hcells by done.
  - intros Hw.
    by rewrite fill_array_not_writeable, fill_array_values_not_writeable by done.
Qed.

End BindingFurther.

(** ** Further properties of [sample.hpp] *)

(** [operator<] on keys is a strict total order, so the iteration of a
    [std::map] starts at its least key. *)
Lemma vec_lt_asym (a b : key) : vec_lt a b = true → vec_lt b a = false.
Proof.
  revert b. induction a as [|x a IH]; intros [|y b]; simpl; try done.
  rewrite orb_true_iff, andb_true_iff, Z.ltb_lt, Z.eqb_eq.
  intros [Hlt|[-> Hab]].
  - apply orb_false_iff. split; [apply Z.ltb_ge; lia|].
    apply andb_false_iff. left. apply Z.eqb_neq. lia.
  - rewrite Z.ltb_irrefl, Z.eqb_refl. simpl. by apply IH.
Qed.

Lemma vec_lt_trans (a b c : key) :
  vec_lt a b = true → vec_lt b c = true → vec_lt a c = true.
Proof.
  revert b c. induction a as [|x a IH]; intros [|y b] [|z c]; simpl; try done.
  rewrite !orb_true_iff, !andb_true_iff, !Z.ltb_lt, !Z.eqb_eq.
  intros [Hxy|[-> Hab]] [Hyz|[-> Hbc]].
  - left. lia.
  - by left.
  - by left.
  - right. split; [done|]. by eapply IH.
Qed.

Lemma vec_lt_trichotomy (a b : key) :
  vec_lt a b = false → vec_lt b a = false → a = b.
Proof.
  revert b. induction a as [|x a IH]; intros [|y b]; simpl; try done.
  rewrite !orb_false_iff, !andb_false_iff, !Z.ltb_ge, !Z.eqb_neq.
  intros [Hxy Hab] [Hyx Hba].
  assert (x = y) as -> by lia. f_equal. apply IH.
  - by destruct Hab.
  - by destruct Hba.
Qed.

Global Instance entry_le_total {V} : Total (@entry_le V).
Proof.
  intros e1 e2. unfold entry_le, vec_le.
  destruct (vec_lt e2.1 e1.1) eqn:H21; [right|by left].
  by apply vec_lt_asym.
Qed.

Global Instance entry_le_trans {V} : Transitive (@entry_le V).
Proof.
  intros e1 e2 e3. unfold entry_le, vec_le. intros H21 H32.
  destruct (vec_lt e3.1 e1.1) eqn:H31; [|done].
  destruct (vec_lt e1.1 e2.1) eqn:H12.
  - by rewrite (vec_lt_trans _ _ _ H31 H12) in H32.
  - rewrite <- (vec_lt_trichotomy _ _ H12 H21) in H32. congruence.
Qed.

Lemma entries_head_least {V} (m : gmap key V) (k : key) (v : V) :
  m !! k = Some v →
  (∀ k', is_Some (m !! k') → vec_lt k' k = false) →
  entries m !! 0%nat = Some (k, v).
Proof.
  intros Hk Hleast.
  assert (Hin : (k, v) ∈ entries m).
  { rewrite entries_Permutation. by apply elem_of_map_to_list. }
  pose proof (StronglySorted_merge_sort entry_le (map_to_list m)) as Hsorted.
  fold (entries m) in Hsorted.
  destruct (entries m) as [|[k0 v0] rest] eqn:He; [by apply elem_of_nil in Hin|].
  simpl. f_equal.
  apply elem_of_cons in Hin as [Heq|Hin]; [done|].
  apply StronglySorted_inv in Hsorted as [_ Hall].
  assert (H0 : m !! k0 = Some v0).
  { apply elem_of_map_to_list. rewrite <- entries_Permutation, He. by left. }
  assert (k0 = k) as ->.
  { apply vec_lt_trichotomy.
    - apply Hleast. by rewrite H0.
    - rewrite list.Forall_forall in Hall. by apply (Hall (k, v) Hin). }
  congruence.
Qed.

Section HppFurther.
Context {T real : Type}.
Variable to_real : T → real.
Variable interpolate_value : Grid T → Position real → T.

(** X10: when the vector under the least key of the map has fewer than
    three coordinates, [get_sample_positions] of [sample.hpp] reads it
    past its end in the first run of the loop body: the behaviour is
    undefined as soon as the loop is entered. *)
Theorem get_sample_positions_short_first_vector
    (fuel : nat) (sample_positions : gmap key (list T)) (k : key) (v : list T) :
  sample_positions !! k = Some v →
  (∀ k', is_Some (sample_positions !! k') → vec_lt k' k = false) →
  (length v < 3)%nat →
  sample_hpp.get_sample_positions to_real (S fuel) sample_positions = Undefined.
Proof.
  intros Hk Hleast Hshort.
  pose proof (entries_head_least _ _ _ Hk Hleast) as Hhead.
  unfold sample_hpp.get_sample_positions. cbn [while].
  assert (Hlen : (0 <? length (entries sample_positions))%nat = true).
  { apply Nat.ltb_lt. by apply lookup_lt_Some in Hhead. }
  cbn [sample_hpp.it]. rewrite Hlen.
  unfold sample_hpp.get_sample_positions_body. cbn [sample_hpp.it].
  rewrite Hhead. cbn [unchecked obind snd].
  destruct v as [|p0 [|p1 [|p2 v]]]; simpl in Hshort; try lia; done.
Qed.

End HppFurther.

(** ** The further properties at concrete inputs *)

Local Open Scope Qc_scope.

Lemma rows_of_three_point_twice : rows_of_three 2 point_twice.
Proof. split; [simpl; lia|]. repeat constructor. Qed.

Lemma rows_of_three_two_positions : rows_of_three 2 two_positions.
Proof. split; [simpl; lia|]. repeat constructor. Qed.


(** X1 at a point given twice. *)
Lemma get_sample_positions_first_row_wins_witness :
  ∃ m, get_sample_positions id point_twice two_positions = Returned m ∧
    ∀ k p, m !! k = Some p ↔
      ∃ i, (i < length point_twice)%nat ∧
           location_of_row point_twice i k ∧
           position_of_row id two_positions i p ∧
           ∀ j, (j < i)%nat → ¬ location_of_row point_twice j k.
Proof.
  exact (get_sample_positions_first_row_wins id point_twice two_positions
           rows_of_three_point_twice rows_of_three_two_positions).
Defined.


(** X3 at two distinct points. *)
Lemma get_point_position_map_key_set_witness :
  ∃ m, get_point_position_map two_points two_positions = Returned m ∧
    dom m = list_to_set two_points ∧
    (NoDup two_points →
       size m = length two_points ∧
       ∀ i pt, two_points !! i = Some pt → m !! pt = two_positions !! i).
Proof.
  apply (get_point_position_map_key_set two_points two_positions).
  simpl; lia.
Defined.

(** X4 at two points and one position. *)
Lemma get_point_position_map_short_positions_witness :
  get_point_position_map point_twice one_position = Undefined ∧
  sample_point_positions 0 id interpolate_value 1 one_cell
    point_twice one_position ramp = Undefined.
Proof.
  apply (get_point_position_map_short_positions 0 id interpolate_value 1
           one_cell point_twice one_position ramp).
  simpl; lia.
Defined.

(** X5 at the array of two cells and a value for the first. *)
Lemma fill_array_values_writes_the_mapped_values_witness :
  ∃ st, fill_array_values 0 two_cells {[ [0; 0; 0]%Z := Z2Qc 5 ]} = Returned st ∧
    written st = (λ c, (c, default 0
                    (({[ [0; 0; 0]%Z := Z2Qc 5 ]} : gmap (list Z) Qc)
                       !! cell_key c)))
                   <$> cells (shape two_cells) ∧
    (∀ c, r st !! c =
       if decide (c ∈ cells (shape two_cells))
       then Some (default 0 (({[ [0; 0; 0]%Z := Z2Qc 5 ]} : gmap (list Z) Qc)
                               !! cell_key c))
       else contents two_cells !! c) ∧
    (∀ k v, ({[ [0; 0; 0]%Z := Z2Qc 5 ]} : gmap (list Z) Qc) !! k = Some v →
            local_map st !! k = Some v).
Proof.
  exact (fill_array_values_writes_the_mapped_values 0 two_cells
           {[ [0; 0; 0]%Z := Z2Qc 5 ]} eq_refl).
Defined.

(** X6 at a map and the same map with a key of four components more. *)
Lemma fill_array_reads_cell_keys_only_witness :
  ∃ st1 st2,
    fill_array 0 interpolate_value one_cell {[ [0; 0; 0]%Z := centre ]} ramp
      = Returned st1 ∧
    fill_array 0 interpolate_value one_cell
      (<[ [0; 0; 0; 0]%Z := origin ]> {[ [0; 0; 0]%Z := centre ]}) ramp
      = Returned st2 ∧
    written st1 = written st2 ∧ r st1 = r st2.
Proof.
  apply (fill_array_reads_cell_keys_only 0 interpolate_value one_cell
           {[ [0; 0; 0]%Z := centre ]}
           (<[ [0; 0; 0; 0]%Z := origin ]> {[ [0; 0; 0]%Z := centre ]}) ramp).
  - reflexivity.
  - intros c _. by rewrite lookup_insert_ne.
Defined.

(** X7 at the array of two cells and a position for the first. *)
Lemma fill_array_overloads_agree_on_mapped_cells_witness :
  ∃ st1 st2,
    fill_array 0 interpolate_value two_cells {[ [0; 0; 0]%Z := centre ]} ramp
      = Returned st1 ∧
    fill_array_values 0 two_cells
      (interpolate_value ramp <$> {[ [0; 0; 0]%Z := centre ]}) = Returned st2 ∧
    (∀ c, is_Some (({[ [0; 0; 0]%Z := centre ]} : gmap (list Z) (Position Qc))
                     !! cell_key c) → r st1 !! c = r st2 !! c) ∧
    (∀ c, c ∈ cells (shape two_cells) →
       ({[ [0; 0; 0]%Z := centre ]} : gmap (list Z) (Position Qc))
         !! cell_key c = None →
       r st1 !! c = Some (interpolate_value ramp (Position0 0)) ∧
       r st2 !! c = Some 0) ∧
    (∀ c, c ∉ cells (shape two_cells) →
       r st1 !! c = contents two_cells !! c ∧
       r st2 !! c = contents two_cells !! c).
Proof.
  exact (fill_array_overloads_agree_on_mapped_cells 0 0 interpolate_value
           two_cells {[ [0; 0; 0]%Z := centre ]} ramp eq_refl).
Defined.


(** X9 at the writeable array without a cell. *)
Lemma fill_array_empty_shape_witness :
  (writeable no_cell = true →
     fill_array 0 interpolate_value no_cell {[ [0; 0; 0]%Z := centre ]} ramp
       = Returned (mkFilling {[ [0; 0; 0]%Z := centre ]} (contents no_cell) []) ∧
     fill_array_values 0 no_cell {[ [0; 0; 0]%Z := 0 ]}
       = Returned (mkFilling {[ [0; 0; 0]%Z := 0 ]} (contents no_cell) [])) ∧
  (writeable no_cell = false →
     fill_array 0 interpolate_value no_cell {[ [0; 0; 0]%Z := centre ]} ramp
       = Raised NotWriteable ∧
     fill_array_values 0 no_cell {[ [0; 0; 0]%Z := 0 ]} = Raised NotWriteable).
Proof.
  apply (fill_array_empty_shape 0 0 interpolate_value no_cell
           {[ [0; 0; 0]%Z := centre ]} {[ [0; 0; 0]%Z := 0 ]} ramp).
  left. reflexivity.
Defined.

(** X10 at a map whose only vector has one coordinate. *)
Lemma get_sample_positions_short_first_vector_witness :
  sample_hpp.get_sample_positions id 1
    ({[ [0; 0; 0]%Z := [Z2Qc 1] ]} : gmap (list Z) (list Qc)) = Undefined.
Proof.
  apply (get_sample_positions_short_first_vector id 0
           {[ [0; 0; 0]%Z := [Z2Qc 1] ]} [0; 0; 0]%Z [Z2Qc 1]).
  - apply lookup_singleton_eq.
  - intros k' [v Hv]. apply lookup_singleton_Some in Hv as [<- _]. reflexivity.
  - simpl; lia.
Defined.

Local Close Scope Qc_scope.
